(** * ng-cart: the [Cart] service of [src/ng-cart.js]

    A shallow embedding of the cart service (event registry, storage wrapper
    around [localStorage], cart operations) together with the properties of
    its specification.

    Modelling conventions.
    - An item is the record [{id, qty}] of the data model.  Both fields are
      JavaScript numbers holding integers; they are modelled as [Z].  The
      sum of two quantities is the sum of integers, which is the sum of
      JavaScript as long as it is up to 2^53 in magnitude ([safe]); what is
      stated of a sum is stated within that bound.  [js_add] is the sum
      with its rounding beyond.
    - [localStorage] is reduced to the one record the service uses (key
      ['cart']): [None] when the key is absent, [Some text] otherwise.
    - [angular.toJson] and [angular.fromJson] ([JSON.stringify], [JSON.parse])
      belong to the environment.  They are modelled by a concrete printer for
      lists of items and a concrete JSON reader.  The reader follows the
      whole grammar of JSON: [read] gives no value exactly on the texts that
      are not JSON, and [fromJson] answers [SyntaxError] on them.  On a text
      that is JSON [read] gives the value, with [JBeyond] for a part that
      the model does not hold (a number written with a fraction or an
      exponent, a string written with an escape or a non-ASCII character),
      and [fromJson] answers [Beyond] for a value with such a part.
      Integers are read as written ([JSON.parse] is exact up to 2^53).  A
      stored value that is JSON but not a list of items of the data model
      makes an operation on the cart [Unmodelled].
    - The review collaborator is a parameter: a decision, [Approve] or
      [Reject], taken when [save] asks for it.  The reviewer of the source
      always approves.
    - External handlers (functions bound with [onEvent] by the application)
      and callbacks are opaque: they are identified by a tag, they do not
      touch the service and they do not throw.  Their invocations, the
      firings and the broadcasts are recorded in a trace, each with the
      contents of the list handed over at that moment.
    - Arrays are modelled by their contents.  The list in memory
      ([storage.allItems]) is the very array handed to the firing; the
      service changes such an array only just before it fires with it, so
      its contents are what matters.  The array given to [addItems] is an
      array of objects, which the loop pushes as they are: [addItems] is the
      call on the contents of an array in which no object occurs twice, and
      [addItemsRef] is the call on the objects themselves.
    - A thrown exception is an outcome of the operation; the state reached
      when it was thrown is kept. *)

From Stdlib Require Import Decimal DecimalFacts DecimalPos DecimalN.
From Stdlib Require Import ZArith NArith List String Ascii Bool Lia.
Import ListNotations.

Set Warnings "-register-all".

Open Scope Z_scope.

(** ** Items *)

Record Item := mkItem { id : Z; qty : Z }.

(** ** JSON texts and values *)

Definition text := list ascii.

Inductive json :=
| JNull
| JBool (b : bool)
| JNum (n : Z)
| JStr (s : text)
| JArr (xs : list json)
| JObj (fields : list (text * json))
| JBeyond. (* a number or a string that the model does not hold *)

Inductive token :=
| TLBrack | TRBrack | TLBrace | TRBrace | TColon | TComma
| TNum (n : Z) | TStr (s : text) | TTrue | TFalse | TNull
| TReal (* a number written with a fraction or an exponent *)
| TEsc. (* a string written with an escape or a non-ASCII character *)

Definition quote : ascii := ascii_of_nat 34.

Definition chr (s : string) : ascii :=
  match s with
  | String c _ => c
  | EmptyString => Ascii.zero
  end.

Definition txt (s : string) : text := list_ascii_of_string s.

(** *** Printer: [angular.toJson] on a list of items *)

Fixpoint chars_of_uint (d : uint) : text :=
  match d with
  | Nil => []
  | D0 d => chr "0" :: chars_of_uint d
  | D1 d => chr "1" :: chars_of_uint d
  | D2 d => chr "2" :: chars_of_uint d
  | D3 d => chr "3" :: chars_of_uint d
  | D4 d => chr "4" :: chars_of_uint d
  | D5 d => chr "5" :: chars_of_uint d
  | D6 d => chr "6" :: chars_of_uint d
  | D7 d => chr "7" :: chars_of_uint d
  | D8 d => chr "8" :: chars_of_uint d
  | D9 d => chr "9" :: chars_of_uint d
  end.

Definition print_N (n : N) : text := chars_of_uint (N.to_uint n).

Definition print_Z (z : Z) : text :=
  match z with
  | Z0 => print_N 0
  | Zpos p => print_N (Npos p)
  | Zneg p => chr "-" :: print_N (Npos p)
  end.

Definition print_key (k : string) : text := quote :: txt k ++ [quote; chr ":"].

Definition print_item (i : Item) : text :=
  chr "{" :: print_key "id" ++ print_Z (id i)
    ++ chr "," :: print_key "qty" ++ print_Z (qty i) ++ [chr "}"].

Fixpoint print_items (l : list Item) : text :=
  match l with
  | [] => []
  | [i] => print_item i
  | i :: r => print_item i ++ chr "," :: print_items r
  end.

Definition toJson (l : list Item) : text :=
  chr "[" :: print_items l ++ [chr "]"].

(** *** Reader: [angular.fromJson] ([JSON.parse]) *)

Definition is_ws (c : ascii) : bool :=
  let n := nat_of_ascii c in
  (n =? 32)%nat || (n =? 9)%nat || (n =? 10)%nat || (n =? 13)%nat.

Definition digit_of (c : ascii) : option N :=
  let n := N_of_ascii c in
  if ((48 <=? n) && (n <=? 57))%N then Some (n - 48)%N else None.

Definition signed (neg : bool) (n : N) : Z :=
  if neg then Z.opp (Z.of_N n) else Z.of_N n.

Definition is_hex (c : ascii) : bool :=
  let n := nat_of_ascii c in
  ((48 <=? n) && (n <=? 57) || (65 <=? n) && (n <=? 70)
   || (97 <=? n) && (n <=? 102))%nat.

(** The characters that may follow a backslash, [u] apart. *)
Definition is_escape (c : ascii) : bool :=
  Ascii.eqb c quote || Ascii.eqb c (chr "\") || Ascii.eqb c (chr "/")
  || Ascii.eqb c (chr "b") || Ascii.eqb c (chr "f") || Ascii.eqb c (chr "n")
  || Ascii.eqb c (chr "r") || Ascii.eqb c (chr "t").

Inductive lmode :=
| LIdle
| LMinus (* a minus sign was read: a digit must follow *)
| LZero (neg : bool) (* the integer part is the single digit 0 *)
| LInt (neg : bool) (n : N) (* digits read so far, the first is not 0 *)
| LFrac0 (* the point was read: a digit must follow *)
| LFrac (* inside the digits of the fraction *)
| LExp0 (* e or E was read: a sign or a digit must follow *)
| LExpSign (* the sign of the exponent was read: a digit must follow *)
| LExp (* inside the digits of the exponent *)
| LStr (acc : text) (* inside a string; characters read, last first *)
| LStrB (* inside a string that has an escape or a non-ASCII character *)
| LEsc (* a backslash was read *)
| LHex (k : nat) (* inside a \u escape: k hexadecimal digits have been read *)
| LLit (t : token) (rest : text). (* inside true, false or null *)

Inductive lstate :=
| LRun (toks : list token) (m : lmode) (* tokens read, last first *)
| LSyntax.

Definition lex_idle (ts : list token) (c : ascii) : lstate :=
  if is_ws c then LRun ts LIdle
  else if Ascii.eqb c (chr "[") then LRun (TLBrack :: ts) LIdle
  else if Ascii.eqb c (chr "]") then LRun (TRBrack :: ts) LIdle
  else if Ascii.eqb c (chr "{") then LRun (TLBrace :: ts) LIdle
  else if Ascii.eqb c (chr "}") then LRun (TRBrace :: ts) LIdle
  else if Ascii.eqb c (chr ":") then LRun (TColon :: ts) LIdle
  else if Ascii.eqb c (chr ",") then LRun (TComma :: ts) LIdle
  else if Ascii.eqb c quote then LRun ts (LStr [])
  else if Ascii.eqb c (chr "-") then LRun ts LMinus
  else if Ascii.eqb c (chr "t") then LRun ts (LLit TTrue (txt "rue"))
  else if Ascii.eqb c (chr "f") then LRun ts (LLit TFalse (txt "alse"))
  else if Ascii.eqb c (chr "n") then LRun ts (LLit TNull (txt "ull"))
  else match digit_of c with
       | Some 0%N => LRun ts (LZero false)
       | Some d => LRun ts (LInt false d)
       | None => LSyntax
       end.

Definition is_exp (c : ascii) : bool :=
  Ascii.eqb c (chr "e") || Ascii.eqb c (chr "E").

(** After the integer part of a number: a fraction, an exponent, or the end
    of the number, [t] being its token. *)
Definition lex_after_int (ts : list token) (t : token) (c : ascii) : lstate :=
  if Ascii.eqb c (chr ".") then LRun ts LFrac0
  else if is_exp c then LRun ts LExp0
  else lex_idle (t :: ts) c.

(** Inside a string, [plain] being the mode that goes on with [c]. *)
Definition lex_in_string (ts : list token) (t : token) (plain : lmode)
    (c : ascii) : lstate :=
  if Ascii.eqb c quote then LRun (t :: ts) LIdle
  else if Ascii.eqb c (chr "\") then LRun ts LEsc
  else if (nat_of_ascii c <? 32)%nat then LSyntax
  else if (127 <? nat_of_ascii c)%nat then LRun ts LStrB
  else LRun ts plain.

Definition lex_step (st : lstate) (c : ascii) : lstate :=
  match st with
  | LRun ts LIdle => lex_idle ts c
  | LRun ts LMinus =>
      match digit_of c with
      | Some 0%N => LRun ts (LZero true)
      | Some d => LRun ts (LInt true d)
      | None => LSyntax
      end
  | LRun ts (LZero neg) =>
      match digit_of c with
      | Some _ => LSyntax
      | None => lex_after_int ts (TNum 0) c
      end
  | LRun ts (LInt neg n) =>
      match digit_of c with
      | Some d => LRun ts (LInt neg (10 * n + d)%N)
      | None => lex_after_int ts (TNum (signed neg n)) c
      end
  | LRun ts LFrac0 =>
      match digit_of c with
      | Some _ => LRun ts LFrac
      | None => LSyntax
      end
  | LRun ts LFrac =>
      match digit_of c with
      | Some _ => LRun ts LFrac
      | None => if is_exp c then LRun ts LExp0 else lex_idle (TReal :: ts) c
      end
  | LRun ts LExp0 =>
      match digit_of c with
      | Some _ => LRun ts LExp
      | None => if Ascii.eqb c (chr "+") || Ascii.eqb c (chr "-")
                then LRun ts LExpSign else LSyntax
      end
  | LRun ts LExpSign =>
      match digit_of c with
      | Some _ => LRun ts LExp
      | None => LSyntax
      end
  | LRun ts LExp =>
      match digit_of c with
      | Some _ => LRun ts LExp
      | None => lex_idle (TReal :: ts) c
      end
  | LRun ts (LStr acc) =>
      lex_in_string ts (TStr (rev acc)) (LStr (c :: acc)) c
  | LRun ts LStrB => lex_in_string ts TEsc LStrB c
  | LRun ts LEsc =>
      if is_escape c then LRun ts LStrB
      else if Ascii.eqb c (chr "u") then LRun ts (LHex 0)
      else LSyntax
  | LRun ts (LHex k) =>
      if is_hex c then
        match k with
        | 3%nat => LRun ts LStrB
        | _ => LRun ts (LHex (S k))
        end
      else LSyntax
  | LRun ts (LLit t rest) =>
      match rest with
      | [] => LSyntax
      | [e] => if Ascii.eqb c e then LRun (t :: ts) LIdle else LSyntax
      | e :: rest' => if Ascii.eqb c e then LRun ts (LLit t rest') else LSyntax
      end
  | LSyntax => LSyntax
  end.

Inductive lexed :=
| LexOk (toks : list token)
| LexSyntax.

Definition lex_end (st : lstate) : lexed :=
  match st with
  | LRun ts LIdle => LexOk (rev ts)
  | LRun ts (LZero _) => LexOk (rev (TNum 0 :: ts))
  | LRun ts (LInt neg n) => LexOk (rev (TNum (signed neg n) :: ts))
  | LRun ts LFrac => LexOk (rev (TReal :: ts))
  | LRun ts LExp => LexOk (rev (TReal :: ts))
  | LRun _ _ => LexSyntax
  | LSyntax => LexSyntax
  end.

Definition lex (s : text) : lexed :=
  lex_end (fold_left lex_step s (LRun [] LIdle)).

(** The reader proper: a pushdown automaton over the tokens. *)

Inductive frame :=
| FArr (done : list json) (* elements read, last first *)
| FObj (done : list (text * json)) (key : option text).

Inductive expect :=
| EValue (* a value *)
| EValueOrClose (* just after an opening bracket *)
| ECommaOrCloseArr (* after an element *)
| EKeyOrClose (* just after an opening brace *)
| EKey (* after a comma in an object *)
| EColon (* after a key *)
| ECommaOrCloseObj. (* after a member *)

Inductive pstate :=
| PRun (e : expect) (stk : list frame)
| PDone (v : json)
| PErr.

Definition reduce (v : json) (stk : list frame) : pstate :=
  match stk with
  | [] => PDone v
  | FArr done :: stk' => PRun ECommaOrCloseArr (FArr (v :: done) :: stk')
  | FObj done (Some k) :: stk' =>
      PRun ECommaOrCloseObj (FObj ((k, v) :: done) None :: stk')
  | FObj _ None :: _ => PErr
  end.

Definition parse_value (t : token) (stk : list frame) : pstate :=
  match t with
  | TNull => reduce JNull stk
  | TTrue => reduce (JBool true) stk
  | TFalse => reduce (JBool false) stk
  | TNum n => reduce (JNum n) stk
  | TStr s => reduce (JStr s) stk
  | TReal => reduce JBeyond stk
  | TEsc => reduce JBeyond stk
  | TLBrack => PRun EValueOrClose (FArr [] :: stk)
  | TLBrace => PRun EKeyOrClose (FObj [] None :: stk)
  | _ => PErr
  end.

Definition close_arr (stk : list frame) : pstate :=
  match stk with
  | FArr done :: stk' => reduce (JArr (rev done)) stk'
  | _ => PErr
  end.

Definition close_obj (stk : list frame) : pstate :=
  match stk with
  | FObj done None :: stk' => reduce (JObj (rev done)) stk'
  | _ => PErr
  end.

Definition set_key (k : text) (stk : list frame) : pstate :=
  match stk with
  | FObj done None :: stk' => PRun EColon (FObj done (Some k) :: stk')
  | _ => PErr
  end.

(** A key that the model does not hold: the object is marked by a member
    [JBeyond], under the empty key. *)
Definition set_key_beyond (stk : list frame) : pstate :=
  match stk with
  | FObj done None :: stk' =>
      PRun EColon (FObj (([], JBeyond) :: done) (Some []) :: stk')
  | _ => PErr
  end.

Definition parse_step (st : pstate) (t : token) : pstate :=
  match st with
  | PRun EValue stk => parse_value t stk
  | PRun EValueOrClose stk =>
      match t with
      | TRBrack => close_arr stk
      | _ => parse_value t stk
      end
  | PRun ECommaOrCloseArr stk =>
      match t with
      | TComma => PRun EValue stk
      | TRBrack => close_arr stk
      | _ => PErr
      end
  | PRun EKeyOrClose stk =>
      match t with
      | TStr k => set_key k stk
      | TEsc => set_key_beyond stk
      | TRBrace => close_obj stk
      | _ => PErr
      end
  | PRun EKey stk =>
      match t with
      | TStr k => set_key k stk
      | TEsc => set_key_beyond stk
      | _ => PErr
      end
  | PRun EColon stk =>
      match t with
      | TColon => PRun EValue stk
      | _ => PErr
      end
  | PRun ECommaOrCloseObj stk =>
      match t with
      | TComma => PRun EKey stk
      | TRBrace => close_obj stk
      | _ => PErr
      end
  | PDone _ => PErr
  | PErr => PErr
  end.

(** The value holds a part that the model does not hold. *)
Fixpoint has_beyond (v : json) : bool :=
  match v with
  | JBeyond => true
  | JArr xs => existsb has_beyond xs
  | JObj fields => existsb (fun kv => has_beyond (snd kv)) fields
  | _ => false
  end.

(** The answer of the reader: the value of the text; [SyntaxError] when the
    text is not JSON; [Beyond] when the text is JSON and its value has a
    number written with a fraction or an exponent, or a string written with
    an escape or a non-ASCII character. *)
Inductive parsed :=
| Parsed (v : json)
| SyntaxError
| Beyond.

(** The value of a text, [None] when the text is not JSON.  A [JBeyond] in
    the value stands for a part that the model does not hold. *)
Definition read (s : text) : option json :=
  match lex s with
  | LexOk toks =>
      match fold_left parse_step toks (PRun EValue []) with
      | PDone v => Some v
      | _ => None
      end
  | LexSyntax => None
  end.

Definition fromJson (s : text) : parsed :=
  match read s with
  | Some v => if has_beyond v then Beyond else Parsed v
  | None => SyntaxError
  end.

(** Reading a JSON value as a list of items of the data model. *)

Definition key_is (k : text) (name : string) : bool :=
  if list_eq_dec ascii_dec k (txt name) then true else false.

Definition item_of_json (v : json) : option Item :=
  match v with
  | JObj [(k1, JNum a); (k2, JNum b)] =>
      if key_is k1 "id" && key_is k2 "qty" then Some (mkItem a b)
      else if key_is k1 "qty" && key_is k2 "id" then Some (mkItem b a)
      else None
  | _ => None
  end.

Fixpoint items_of_jsons (vs : list json) : option (list Item) :=
  match vs with
  | [] => Some []
  | v :: r =>
      match item_of_json v, items_of_jsons r with
      | Some i, Some l => Some (i :: l)
      | _, _ => None
      end
  end.

Definition items_of_json (v : json) : option (list Item) :=
  match v with
  | JArr vs => items_of_jsons vs
  | _ => None
  end.

(** ** The service state *)

(** A binding of the event registry.  [Internal] is the binding that [init]
    pushes: type ['sys-modified'], handler the closure of [init].  The closure
    is private to the service, so no other binding carries it. *)
Inductive binding :=
| Internal
| External (type : string) (tag : nat).

Definition binding_type (b : binding) : string :=
  match b with
  | Internal => "sys-modified"
  | External type _ => type
  end.

(** The data passed to handlers: a list of items, or nothing ([undefined]). *)
Definition payload := option (list Item).

(** What the service does to its environment, in order. *)
Inductive event :=
| Fired (type : string) (data : payload) (* fireCustomEvent was entered *)
| Ran (tag : nat) (data : payload) (* an external handler was invoked *)
| Broadcast (items : list Item) (* $rootScope.$broadcast('cart-modified', items) *)
| CalledBack (tag : nat) (items : list Item). (* a callback argument was invoked *)

Record state := mkState {
  eventStack : list binding;
  allItems : list Item; (* storage.allItems *)
  localStorage : option text; (* the record under storage.key *)
  trace : list event
}.

Inductive error :=
| SyntaxErr (* raised by JSON.parse *)
| TypeErr
| IdMandatory (* errors['idMandatory'] *)
| Rejected (err : string). (* the reason given by the reviewer *)

Inductive outcome (A : Type) :=
| Return (a : A)
| Throw (e : error)
| Unmodelled. (* the run leaves the data model *)

Arguments Return {A} a.
Arguments Throw {A} e.
Arguments Unmodelled {A}.

Definition M (A : Type) : Type := state -> state * outcome A.

Definition ret {A} (a : A) : M A := fun st => (st, Return a).

Definition throw {A} (e : error) : M A := fun st => (st, Throw e).

Definition unmodelled {A} : M A := fun st => (st, Unmodelled).

Definition bind {A B} (c : M A) (k : A -> M B) : M B :=
  fun st =>
    match c st with
    | (st', Return a) => k a st'
    | (st', Throw e) => (st', Throw e)
    | (st', Unmodelled) => (st', Unmodelled)
    end.

Notation "x <- c ;; k" := (bind c (fun x => k))
  (at level 61, c at next level, right associativity).
Notation "c ;; k" := (bind c (fun _ => k))
  (at level 61, right associativity).

Definition gets {A} (f : state -> A) : M A := fun st => (st, Return (f st)).

Definition log (e : event) : M unit :=
  fun st => (mkState (eventStack st) (allItems st) (localStorage st)
                     (trace st ++ [e]), Return tt).

Definition set_eventStack (s : list binding) : M unit :=
  fun st => (mkState s (allItems st) (localStorage st) (trace st), Return tt).

Definition set_allItems (l : list Item) : M unit :=
  fun st => (mkState (eventStack st) l (localStorage st) (trace st), Return tt).

(** [localStorage.setItem(storage.key, s)] and [getItem(storage.key)] *)
Definition setItem (s : text) : M unit :=
  fun st => (mkState (eventStack st) (allItems st) (Some s) (trace st), Return tt).

Definition getItem : M (option text) := gets localStorage.

(** ** The storage wrapper *)

Definition storage_save (obj : list Item) : M unit := setItem (toJson obj).

Definition storage_fetch : M (list Item) :=
  fromLocalStorage <- getItem ;;
  match fromLocalStorage with
  | Some (c :: s) =>
      match fromJson (c :: s) with
      | Parsed v =>
          match items_of_json v with
          | Some l => ret l
          | None => unmodelled
          end
      | SyntaxError => throw SyntaxErr
      | Beyond => unmodelled
      end
  | _ => ret []
  end.

(** [storage.fetch] with the value as it is returned: any JSON value. *)
Definition fetch_value : M json :=
  fromLocalStorage <- getItem ;;
  match fromLocalStorage with
  | Some (c :: s) =>
      match read (c :: s) with
      | Some v => ret v
      | None => throw SyntaxErr
      end
  | _ => ret (JArr [])
  end.

(** A value used as the array of items of the cart. *)
Definition as_items (v : json) : M (list Item) :=
  match items_of_json v with
  | Some l => ret l
  | None => unmodelled
  end.

(** ** The event registry *)

(** [type.split(' ')] *)
Fixpoint split (s : string) : list string :=
  match s with
  | EmptyString => [EmptyString]
  | String c r =>
      match split r with
      | w :: ws => if Ascii.eqb c " " then EmptyString :: w :: ws
                   else String c w :: ws
      | [] => []
      end
  end.

(** [eventTypes.indexOf(t) !== -1] *)
Definition indexOf_found (eventTypes : list string) (t : string) : bool :=
  existsb (String.eqb t) eventTypes.

Definition onEvent (type : string) (tag : nat) : M unit :=
  stack <- gets eventStack ;; set_eventStack (stack ++ [External type tag]).

(** The loop of [fireCustomEvent]; [sys] is the body of the internal
    handler.  A handler that throws ends the loop. *)
Fixpoint fireLoop (sys : payload -> M unit) (eventTypes : list string)
    (data : payload) (stack : list binding) : M unit :=
  match stack with
  | [] => ret tt
  | b :: rest =>
      (if indexOf_found eventTypes (binding_type b) then
         match b with
         | Internal => sys data
         | External _ tag => log (Ran tag data)
         end
       else ret tt) ;;
      fireLoop sys eventTypes data rest
  end.

Definition fireWith (sys : payload -> M unit) (type : string)
    (data : payload) : M unit :=
  log (Fired type data) ;;
  stack <- gets eventStack ;;
  fireLoop sys (split type) data stack.

(** [splice(start, deleteCount, ...ins)] on an array *)
Definition splice {A} (start count : nat) (ins : list A) (l : list A) : list A :=
  firstn start l ++ ins ++ skipn (start + count) l.

(** The loop of [unbindEvent]: [for (var i in eventStack)] visits the keys
    the array had when the loop started, in order, and skips a key that is
    no longer a property of the array when its turn comes. *)
Fixpoint unbindLoop (type : string) (keys : list nat) (stack : list binding)
    : list binding :=
  match keys with
  | [] => stack
  | i :: keys' =>
      match nth_error stack i with
      | Some b =>
          if String.eqb (binding_type b) type
          then unbindLoop type keys' (splice i 1 [] stack)
          else unbindLoop type keys' stack
      | None => unbindLoop type keys' stack
      end
  end.

Definition unbindEvent (type : string) : M unit :=
  stack <- gets eventStack ;;
  set_eventStack (unbindLoop type (seq 0 (List.length stack)) stack).

(** ** The cart *)

Inductive decision :=
| Approve
| Reject (err : string).

Record found := mkFound { item : option Item; index : Z }.

(** The index left in [idx] by the filter callback of [getById]: the callback
    runs on every element in order and overwrites [idx] at each match. *)
Fixpoint scanIndex (id0 : Z) (l : list Item) (i : Z) (idx : Z) : Z :=
  match l with
  | [] => idx
  | it :: r => scanIndex id0 r (i + 1) (if id it =? id0 then i else idx)
  end.

(** [filteredItems.pop()] *)
Definition pop {A} (l : list A) : option A :=
  match rev l with
  | [] => None
  | x :: _ => Some x
  end.

(** [cartItems[i].qty += q].  The sum is the sum of integers, which is the
    sum of the two numbers when it is up to 2^53 in magnitude ([safe]); what
    is stated of a sum is stated under that bound. *)
Fixpoint addQtyAt (i : nat) (q : Z) (l : list Item) : list Item :=
  match l, i with
  | [], _ => []
  | it :: r, O => mkItem (id it) (qty it + q) :: r
  | it :: r, S i' => it :: addQtyAt i' q r
  end.

Definition callback (cb : option nat) (items : list Item) : M unit :=
  match cb with
  | Some tag => log (CalledBack tag items)
  | None => ret tt (* angular.noop *)
  end.

Definition refresh (items : list Item) : M unit := log (Broadcast items).

(** The decision of the review collaborator may depend on anything the
    service holds; it is taken without changing it. *)
Section Cart.

Variable review : state -> decision.

(** [storage.persist].  The event fired here is ['persisted'], which is not
    the type of the internal binding: its handler is not entered again. *)
Definition persist : M unit :=
  items <- gets allItems ;;
  storage_save items ;;
  fireWith (fun _ => ret tt) "persisted" None.

(** [cart.save]: the thenable of the reviewer runs one of the two
    callbacks; the second one re-throws. *)
Definition save : M unit :=
  reviewPromise <- gets review ;;
  match reviewPromise with
  | Approve => persist
  | Reject err => throw (Rejected err)
  end.

(** The handler bound to ['sys-modified'] by [init]. *)
Definition sysModified (data : payload) : M unit :=
  match data with
  | Some items => set_allItems items ;; refresh items ;; save
  | None => unmodelled
  end.

Definition fireCustomEvent (type : string) (data : payload) : M unit :=
  fireWith sysModified type data.

Definition init : M unit :=
  stack <- gets eventStack ;;
  set_eventStack (stack ++ [Internal]) ;;
  fireCustomEvent "initialized" None.

(** [cart.getCart(cb)]; the object returned holds [items] and an accessor
    that hands the same [items] over. *)
Definition getCart (cb : option nat) : M (list Item) :=
  items <- storage_fetch ;;
  callback cb items ;;
  ret items.

Definition getById (id0 : Z) (itemsToUse : option (list Item)) : M found :=
  cartItems <- match itemsToUse with
               | Some l => ret l
               | None => getCart None
               end ;;
  let filteredItems := filter (fun it => id it =? id0) cartItems in
  ret (mkFound (pop filteredItems) (scanIndex id0 cartItems 0 (-1))).

(** The body of the loop of [addItems], for one entry, given by its
    contents: the entry is an object that the array holds once, so that the
    loop does not meet it again after pushing it. *)
Definition addOne (it : Item) (cartItems : list Item) : M (list Item) :=
  existing <- getById (id it) (Some cartItems) ;;
  let cartItems' :=
    if negb (index existing =? -1)
    then addQtyAt (Z.to_nat (index existing)) (qty it) cartItems
    else cartItems ++ [it] in
  fireCustomEvent "modified added sys-modified" (Some cartItems') ;;
  ret cartItems'.

Fixpoint addLoop (items : list Item) (cartItems : list Item) : M (list Item) :=
  match items with
  | [] => ret cartItems
  | it :: rest =>
      cartItems' <- addOne it cartItems ;;
      addLoop rest cartItems'
  end.

(** [cart.addItems(items)], for an array of items, no object occurring in
    it twice. *)
Definition addItems (items : list Item) : M (list Item) :=
  cartItems <- getCart None ;;
  addLoop items cartItems.

(** [qty || 1] *)
Definition orOne (q : option Z) : Z :=
  match q with
  | Some q' => if q' =? 0 then 1 else q'
  | None => 1
  end.

(** [cart.addItem(id, qty)]; an argument left out is [None]. *)
Definition addItem (id0 : option Z) (q : option Z) : M (list Item) :=
  let q := orOne q in
  match id0 with
  | None => throw IdMandatory
  | Some i => addItems [mkItem i q]
  end.

Definition remove (id0 : Z) : M bool :=
  result <- getById id0 None ;;
  cartItems <- getCart None ;;
  if negb (index result =? -1) then
    let cartItems' := splice (Z.to_nat (index result)) 1 [] cartItems in
    fireCustomEvent "modified removed sys-modified" (Some cartItems') ;;
    ret true
  else ret false.

Definition clear : M unit :=
  fireCustomEvent "modified removed cleared sys-modified" (Some []).

Definition changeQuantity (id0 : Z) (q : Z) (cb : option nat) : M bool :=
  cartItems <- getCart None ;;
  result <- getById id0 None ;;
  if negb (index result =? -1) then
    match item result with
    | Some it =>
        let updatedItem := mkItem (id it) q in
        let cartItems' :=
          splice (Z.to_nat (index result)) 1 [updatedItem] cartItems in
        fireCustomEvent "modified updated sys-modified" (Some cartItems') ;;
        callback cb cartItems' ;;
        ret true
    | None => throw TypeErr
    end
  else ret false.

End Cart.

(** The reviewer of the source: its thenable always runs the first callback. *)
Definition Reviewer_review : state -> decision := fun _ => Approve.

(** The service as constructed: private variables at their initial values,
    then [init]. *)
Definition fresh (ls : option text) : state := mkState [] [] ls [].

Definition boot (review : state -> decision) (ls : option text) : state :=
  fst (init review (fresh ls)).

(** Running a sequence of calls, for examples. *)
Definition run {A} (c : M A) (st : state) : state := fst (c st).
Definition result {A} (c : M A) (st : state) : outcome A := snd (c st).

(** ** Definitions used in the statements and proofs *)

Definition json_of_item (i : Item) : json :=
  JObj [(txt "id", JNum (id i)); (txt "qty", JNum (qty i))].

Definition item_tokens (i : Item) : list token :=
  [TLBrace; TStr (txt "id"); TColon; TNum (id i); TComma;
   TStr (txt "qty"); TColon; TNum (qty i); TRBrace].

Fixpoint items_tokens (l : list Item) : list token :=
  match l with
  | [] => []
  | [i] => item_tokens i
  | i :: r => item_tokens i ++ TComma :: items_tokens r
  end.

(** The mode of the lexer after the digits of [z]. *)
Definition num_mode (z : Z) : lmode :=
  match z with
  | Z0 => LZero false
  | Zpos p => LInt false (Npos p)
  | Zneg p => LInt true (Npos p)
  end.

Definition is_internal (b : binding) : bool :=
  match b with
  | Internal => true
  | External _ _ => false
  end.

(** The binding pushed by [init] is still in the registry. *)
Definition wired (st : state) : Prop :=
  List.length (filter is_internal (eventStack st)) = 1%nat.

(** The cart that [getCart] hands over in [st]. *)
Definition cart_is (st : state) (l : list Item) : Prop :=
  storage_fetch st = (st, Return l).

(** What the external handlers bound to one of [eventTypes] leave in the
    trace when they are handed [data]. *)
Definition ran (eventTypes : list string) (data : payload)
    (stack : list binding) : list event :=
  flat_map (fun b =>
              match b with
              | External ty tag =>
                  if indexOf_found eventTypes ty then [Ran tag data] else []
              | Internal => []
              end) stack.

(** What firing [eventTypes] with [items] over [stack] leaves in the trace
    when the review approves; [full] is the whole registry. *)
Definition delivered (full : list binding) (eventTypes : list string)
    (items : list Item) (stack : list binding) : list event :=
  flat_map (fun b =>
              if indexOf_found eventTypes (binding_type b) then
                match b with
                | Internal =>
                    Broadcast items :: Fired "persisted" None
                      :: ran ["persisted"%string] None full
                | External _ tag => [Ran tag (Some items)]
                end
              else []) stack.

(** The internal handler is among the handlers that a firing of [eventTypes]
    over [stack] invokes. *)
Definition hit (eventTypes : list string) (stack : list binding) : bool :=
  existsb is_internal stack && indexOf_found eventTypes "sys-modified".

(** What the loop of [unbindEvent] leaves of the bindings it has not reached
    yet: the binding that follows a removed one takes its index and is
    stepped over. *)
Fixpoint sweep (type : string) (stack : list binding) : list binding :=
  match stack with
  | [] => []
  | b :: rest =>
      if String.eqb (binding_type b) type then
        match rest with
        | [] => []
        | b' :: rest' => b' :: sweep type rest'
        end
      else b :: sweep type rest
  end.

(** No two neighbours of [stack] are both of type [type]. *)
Fixpoint apart (type : string) (stack : list binding) : bool :=
  match stack with
  | [] => true
  | b :: rest =>
      match rest with
      | [] => true
      | b' :: _ =>
          negb (String.eqb (binding_type b) type
                && String.eqb (binding_type b') type)
          && apart type rest
      end
  end.

(** The payloads of the firings of type [ty] in a trace. *)
Definition firings (ty : string) (tr : list event) : list payload :=
  flat_map (fun e =>
              match e with
              | Fired t d => if String.eqb t ty then [d] else []
              | _ => []
              end) tr.

(** The lists broadcast to the application in a trace. *)
Definition broadcasts (tr : list event) : list (list Item) :=
  flat_map (fun e =>
              match e with
              | Broadcast l => [l]
              | _ => []
              end) tr.

(** The list [addItems] holds after one entry. *)
Definition afterAdd (it : Item) (cartItems : list Item) : list Item :=
  let idx := scanIndex (id it) cartItems 0 (-1) in
  if negb (idx =? -1)
  then addQtyAt (Z.to_nat idx) (qty it) cartItems
  else cartItems ++ [it].

(** The lists [addItems] holds after each entry, in order. *)
Fixpoint snapshots (items : list Item) (cartItems : list Item)
    : list (list Item) :=
  match items with
  | [] => []
  | it :: rest =>
      let c := afterAdd it cartItems in c :: snapshots rest c
  end.

Definition ids (l : list Item) : list Z := map id l.

(** The state after a firing of [type] with [items] that reached the internal
    handler, the review approving. *)
Definition mutated (type : string) (items : list Item) (st : state) : state :=
  mkState (eventStack st) items (Some (toJson items))
          (trace st ++ Fired type (Some items)
             :: delivered (eventStack st) (split type) items (eventStack st)).

(** The state after the loop of [addItems], the review approving. *)
Fixpoint added (items : list Item) (cartItems : list Item) (st : state)
    : state :=
  match items with
  | [] => st
  | it :: rest =>
      let c := afterAdd it cartItems in
      added rest c (mutated "modified added sys-modified" c st)
  end.

(** The integers that a JavaScript number holds exactly, whatever the
    arithmetic that led to them: those up to 2^53 in magnitude. *)
Definition safe (z : Z) : Prop := - 2 ^ 53 <= z <= 2 ^ 53.

Definition safe_items (l : list Item) : Prop :=
  Forall (fun it => safe (id it) /\ safe (qty it)) l.

Definition text_eqb (a b : text) : bool :=
  if list_eq_dec ascii_dec a b then true else false.

Fixpoint distinct (ks : list text) : bool :=
  match ks with
  | [] => true
  | k :: r => negb (existsb (text_eqb k) r) && distinct r
  end.

(** The model holds the value as [JSON.parse] gives it: no part of it is
    [JBeyond], its numbers are up to 2^53 in magnitude (a longer literal is
    rounded), no object has a key twice (the last member of a key is the one
    kept). *)
Fixpoint held (v : json) : bool :=
  match v with
  | JBeyond => false
  | JNum n => Z.abs n <=? 2 ^ 53
  | JArr xs => forallb held xs
  | JObj fields =>
      distinct (map fst fields) && forallb (fun kv => held (snd kv)) fields
  | _ => true
  end.

(** ** Further definitions *)

(** [storage.clear] *)
Definition storage_clear : M unit := storage_save [].

(** The string holds a space. *)
Fixpoint has_space (s : string) : bool :=
  match s with
  | EmptyString => false
  | String c r => Ascii.eqb c " " || has_space r
  end.

(** The bindings of the registry whose type is not [type]. *)
Definition others (type : string) (stack : list binding) : list binding :=
  filter (fun b => negb (String.eqb (binding_type b) type)) stack.

(** The quantities of a list of items, added up. *)
Definition total (l : list Item) : Z :=
  fold_right (fun it a => qty it + a) 0 l.

(** A call of the public interface of the service, for sequences of calls. *)
Inductive call :=
| CallGetCart (cb : option nat)
| CallAddItem (id0 : option Z) (q : option Z)
| CallAddItems (items : list Item)
| CallRemove (id0 : Z)
| CallClear
| CallChangeQuantity (id0 : Z) (q : Z) (cb : option nat)
| CallSave
| CallOnEvent (type : string) (tag : nat)
| CallUnbindEvent (type : string).

(** The state a call leaves. *)
Definition exec (review : state -> decision) (c : call) (st : state) : state :=
  match c with
  | CallGetCart cb => run (getCart cb) st
  | CallAddItem id0 q => run (addItem review id0 q) st
  | CallAddItems items => run (addItems review items) st
  | CallRemove id0 => run (remove review id0) st
  | CallClear => run (clear review) st
  | CallChangeQuantity id0 q cb => run (changeQuantity review id0 q cb) st
  | CallSave => run (save review) st
  | CallOnEvent type tag => run (onEvent type tag) st
  | CallUnbindEvent type => run (unbindEvent type) st
  end.

(** Two states with the same registry, list in memory and store. *)
Definition same_cart (st st' : state) : Prop :=
  eventStack st' = eventStack st /\ allItems st' = allItems st
  /\ localStorage st' = localStorage st.

(** The registry holds the internal binding at most once; the store reads as
    a cart without two items of one id; the list in memory is that cart, or
    still the empty list it was created with. *)
Definition consistent (st : state) : Prop :=
  (List.length (filter is_internal (eventStack st)) <= 1)%nat
  /\ exists l, cart_is st l /\ NoDup (ids l)
               /\ (allItems st = [] \/ allItems st = l).

(** ** [addItems] on the objects of its caller, with the numbers of JavaScript *)




(** The objects of the caller, by address. *)
Definition objects := list Item.



Fixpoint update {A} (i : nat) (x : A) (l : list A) : list A :=
  match l, i with
  | [], _ => []
  | _ :: r, O => x :: r
  | y :: r, S i' => y :: update i' x r
  end.





(** The entries of an array of addresses. *)
Definition entries (heap : objects) (items : list nat) : list Item :=
  map (fun a => nth a heap (mkItem 0 0)) items.


(** * Properties *)

(** ** The JSON codec *)

Example fromJson_nested :
  fromJson (txt " [1, [true, null] ,{ } ] ")
  = Parsed (JArr [JNum 1; JArr [JBool true; JNull]; JObj []]).
Proof. reflexivity. Qed.

Example fromJson_rejects :
  fromJson (txt "") = SyntaxError
  /\ fromJson (txt "[1,]") = SyntaxError
  /\ fromJson (txt "01") = SyntaxError
  /\ fromJson (txt "[1 2]") = SyntaxError
  /\ fromJson (txt "nul") = SyntaxError
  /\ fromJson (txt "[1.]") = SyntaxError
  /\ fromJson (txt "1e+") = SyntaxError
  /\ fromJson (txt ".5") = SyntaxError
  /\ fromJson (txt "-") = SyntaxError
  /\ fromJson (quote :: txt "a\x" ++ [quote]) = SyntaxError
  /\ fromJson (quote :: txt "\u12g4" ++ [quote]) = SyntaxError
  /\ fromJson (quote :: txt "open") = SyntaxError.
Proof. repeat split. Qed.

Example fromJson_beyond :
  fromJson (txt "1.5") = Beyond /\ fromJson (txt "[2e3]") = Beyond
  /\ fromJson (txt "-0.5E-2") = Beyond
  /\ fromJson (quote :: txt "a\n\u12aF" ++ [quote]) = Beyond.
Proof. repeat split. Qed.

(** Text that is JSON and not an array of items is read as the value it is. *)
Example fromJson_values :
  fromJson (txt "null") = Parsed JNull
  /\ fromJson (txt " 7 ") = Parsed (JNum 7)
  /\ fromJson (txt "{}") = Parsed (JObj [])
  /\ result fetch_value (fresh (Some (txt "[[], -0]")))
     = Return (JArr [JArr []; JNum 0]).
Proof. repeat split. Qed.

(** Keys in the other order and white space between the tokens read as the
    same item. *)
Example fetch_other_layout :
  result storage_fetch
    (fresh (Some (txt "[ {" ++ quote :: txt "qty" ++ quote :: txt " : 3, "
                    ++ quote :: txt "id" ++ quote :: txt ":-7} ]")))
  = Return [mkItem (-7) 3].
Proof. reflexivity. Qed.

Section Lexer.

Local Open Scope N_scope.

Lemma lex_digits ts neg d : forall lu,
  fold_left lex_step (chars_of_uint d)
            (LRun ts (LInt neg (DecimalPos.Unsigned.of_lu lu)))
  = LRun ts (LInt neg (DecimalPos.Unsigned.of_lu (revapp d lu))).
Proof.
  induction d; intros lu; [reflexivity | ..];
    cbn [chars_of_uint fold_left revapp]; rewrite <- IHd;
    f_equal; cbn [DecimalPos.Unsigned.of_lu]; unfold lex_step;
    match goal with
    | |- context [digit_of ?c] =>
        change (digit_of c) with (Some 0) || change (digit_of c) with (Some 1)
        || change (digit_of c) with (Some 2) || change (digit_of c) with (Some 3)
        || change (digit_of c) with (Some 4) || change (digit_of c) with (Some 5)
        || change (digit_of c) with (Some 6) || change (digit_of c) with (Some 7)
        || change (digit_of c) with (Some 8) || change (digit_of c) with (Some 9)
    end; cbv iota; do 2 f_equal; lia.
Qed.

(** The decimal writing of a positive number does not start with 0. *)
Lemma to_uint_head p :
  (match Pos.to_uint p with
   | Nil | D0 _ => False
   | _ => True
   end : Prop).
Proof.
  pose proof (DecimalPos.Unsigned.to_of (Pos.to_uint p)) as E.
  rewrite DecimalPos.Unsigned.of_to in E. cbn [N.to_uint] in E.
  pose proof (DecimalPos.Unsigned.to_uint_nonzero p) as NZ.
  pose proof (DecimalPos.Unsigned.to_uint_nonnil p) as NN.
  destruct (Pos.to_uint p) as [|d| | | | | | | | |]; auto.
  rewrite unorm_D0 in E.
  destruct (uint_eq_dec d Nil) as [->|Hd]; [now apply NZ|].
  pose proof (nb_digits_unorm d Hd) as L. rewrite <- E in L.
  cbn [nb_digits] in L. lia.
Qed.

Lemma lex_first_digit ts (neg : bool) (d : uint) :
  (match d with Nil | D0 _ => False | _ => True end : Prop) ->
  fold_left lex_step (chars_of_uint d)
            (LRun ts (if neg then LMinus else LIdle))
  = LRun ts (LInt neg (Pos.of_uint d)).
Proof.
  intros H. rewrite DecimalPos.Unsigned.of_uint_alt. unfold Decimal.rev.
  destruct d; try easy; cbn [chars_of_uint fold_left revapp];
    match goal with
    | |- context [revapp _ ?lu] =>
        rewrite <- (lex_digits ts neg _ lu)
    end; f_equal; destruct neg; reflexivity.
Qed.

Lemma lex_print_pos ts (neg : bool) p :
  fold_left lex_step (print_N (Npos p))
            (LRun ts (if neg then LMinus else LIdle))
  = LRun ts (LInt neg (Npos p)).
Proof.
  unfold print_N. cbn [N.to_uint].
  rewrite lex_first_digit by apply to_uint_head.
  now rewrite DecimalPos.Unsigned.of_to.
Qed.

End Lexer.

Lemma lex_print_Z ts z :
  fold_left lex_step (print_Z z) (LRun ts LIdle) = LRun ts (num_mode z).
Proof.
  destruct z as [|p|p]; cbn [print_Z num_mode].
  - reflexivity.
  - apply (lex_print_pos ts false).
  - cbn [fold_left]. apply (lex_print_pos ts true).
Qed.

Lemma lex_open_item ts :
  fold_left lex_step (chr "{" :: print_key "id") (LRun ts LIdle)
  = LRun (TColon :: TStr (txt "id") :: TLBrace :: ts) LIdle.
Proof. reflexivity. Qed.

Lemma lex_next_member ts z :
  fold_left lex_step (chr "," :: print_key "qty") (LRun ts (num_mode z))
  = LRun (TColon :: TStr (txt "qty") :: TComma :: TNum z :: ts) LIdle.
Proof. destruct z; reflexivity. Qed.

Lemma lex_close_item ts z :
  fold_left lex_step [chr "}"] (LRun ts (num_mode z))
  = LRun (TRBrace :: TNum z :: ts) LIdle.
Proof. destruct z; reflexivity. Qed.

Lemma print_item_parts i :
  print_item i
  = (chr "{" :: print_key "id") ++ print_Z (id i)
      ++ (chr "," :: print_key "qty") ++ print_Z (qty i) ++ [chr "}"].
Proof. reflexivity. Qed.

Lemma lex_item ts i :
  fold_left lex_step (print_item i) (LRun ts LIdle)
  = LRun (rev (item_tokens i) ++ ts) LIdle.
Proof.
  rewrite print_item_parts, !fold_left_app.
  rewrite lex_open_item, lex_print_Z, lex_next_member, lex_print_Z.
  now rewrite lex_close_item.
Qed.

Lemma lex_items l : forall ts,
  fold_left lex_step (print_items l) (LRun ts LIdle)
  = LRun (rev (items_tokens l) ++ ts) LIdle.
Proof.
  induction l as [|i r IH]; intros ts; [reflexivity|].
  destruct r as [|j r].
  - apply lex_item.
  - change (print_items (i :: j :: r))
      with (print_item i ++ chr "," :: print_items (j :: r)).
    change (items_tokens (i :: j :: r))
      with (item_tokens i ++ TComma :: items_tokens (j :: r)).
    rewrite fold_left_app, lex_item. cbn [fold_left].
    change (lex_step (LRun (rev (item_tokens i) ++ ts) LIdle) (chr ","))
      with (LRun (TComma :: rev (item_tokens i) ++ ts) LIdle).
    rewrite IH, rev_app_distr. cbn [rev]. now rewrite <- !app_assoc.
Qed.

Lemma lex_toJson l :
  lex (toJson l) = LexOk (TLBrack :: items_tokens l ++ [TRBrack]).
Proof.
  unfold lex, toJson. cbn [fold_left].
  change (lex_step (LRun [] LIdle) (chr "[")) with (LRun [TLBrack] LIdle).
  rewrite fold_left_app, lex_items. cbn [fold_left].
  change (lex_step (LRun (rev (items_tokens l) ++ [TLBrack]) LIdle) (chr "]"))
    with (LRun (TRBrack :: rev (items_tokens l) ++ [TLBrack]) LIdle).
  cbn [lex_end rev]. rewrite rev_app_distr, rev_involutive. reflexivity.
Qed.

Lemma parse_item i e done stk :
  e = EValue \/ e = EValueOrClose ->
  fold_left parse_step (item_tokens i) (PRun e (FArr done :: stk))
  = PRun ECommaOrCloseArr (FArr (json_of_item i :: done) :: stk).
Proof. intros [-> | ->]; reflexivity. Qed.

Lemma parse_items r : forall i e done,
  e = EValue \/ e = EValueOrClose ->
  fold_left parse_step (items_tokens (i :: r) ++ [TRBrack])
            (PRun e [FArr done])
  = PDone (JArr (rev done ++ map json_of_item (i :: r))).
Proof.
  induction r as [|j r IH]; intros i e done He.
  - cbn [items_tokens]. rewrite fold_left_app, parse_item by assumption.
    reflexivity.
  - change (items_tokens (i :: j :: r))
      with (item_tokens i ++ TComma :: items_tokens (j :: r)).
    rewrite <- app_assoc, fold_left_app, parse_item by assumption.
    cbn [app fold_left]. 
    change (parse_step (PRun ECommaOrCloseArr [FArr (json_of_item i :: done)]) TComma)
      with (PRun EValue [FArr (json_of_item i :: done)]).
    rewrite IH by auto. cbn [rev map]. now rewrite <- app_assoc.
Qed.

Lemma item_of_json_of_item i : item_of_json (json_of_item i) = Some i.
Proof. destruct i; reflexivity. Qed.

Lemma items_of_jsons_map l : items_of_jsons (map json_of_item l) = Some l.
Proof.
  induction l as [|i l IH]; [reflexivity|].
  cbn [map items_of_jsons]. now rewrite item_of_json_of_item, IH.
Qed.

Lemma items_hold l : has_beyond (JArr (map json_of_item l)) = false.
Proof.
  cbn [has_beyond]. induction l as [|i l IH]; [reflexivity|].
  cbn [map existsb]. now rewrite IH.
Qed.

(** Reading back what the printer wrote. *)
Lemma fromJson_toJson l :
  fromJson (toJson l) = Parsed (JArr (map json_of_item l)).
Proof.
  unfold fromJson, read. rewrite lex_toJson. cbn [fold_left].
  change (parse_step (PRun EValue []) TLBrack)
    with (PRun EValueOrClose [FArr []]).
  destruct l as [|i r]; [reflexivity|].
  rewrite parse_items by auto. cbn [rev app].
  now rewrite items_hold.
Qed.

Lemma toJson_nonempty l : exists c s, toJson l = c :: s.
Proof. unfold toJson. eauto. Qed.

(** ** The monad *)

Lemma bind_return {A B} (c : M A) (k : A -> M B) st st' a :
  c st = (st', Return a) -> bind c k st = k a st'.
Proof. unfold bind. now intros ->. Qed.

(** ** The storage wrapper *)

Lemma items_of_toJson l :
  match fromJson (toJson l) with
  | Parsed v => items_of_json v
  | _ => None
  end = Some l.
Proof. rewrite fromJson_toJson. apply items_of_jsons_map. Qed.

Lemma fetch_state st : fst (storage_fetch st) = st.
Proof.
  unfold storage_fetch, bind, getItem, gets.
  destruct (localStorage st) as [[|c s]|]; try reflexivity.
  destruct (fromJson (c :: s)); try reflexivity.
  destruct (items_of_json v); reflexivity.
Qed.

Lemma fetch_empty st :
  localStorage st = None \/ localStorage st = Some [] ->
  result storage_fetch st = Return [].
Proof.
  unfold result, storage_fetch, bind, getItem, gets.
  intros [-> | ->]; reflexivity.
Qed.

Lemma fetch_written st l :
  localStorage st = Some (toJson l) -> cart_is st l.
Proof.
  intros H. unfold cart_is, storage_fetch, bind, getItem, gets. rewrite H.
  pose proof (items_of_toJson l) as R.
  destruct (toJson_nonempty l) as (c & s & E). rewrite E in *.
  destruct (fromJson (c :: s)); try discriminate.
  now rewrite R.
Qed.

(** ** The event registry *)

Lemma fireLoop_quiet eventTypes data stack : forall st,
  fireLoop (fun _ => ret tt) eventTypes data stack st
  = (mkState (eventStack st) (allItems st) (localStorage st)
             (trace st ++ ran eventTypes data stack), Return tt).
Proof.
  induction stack as [|b rest IH]; intros [es ai ls tr].
  - cbn. now rewrite app_nil_r.
  - cbn [fireLoop ran flat_map]. unfold bind at 1.
    destruct b as [|ty tag]; cbn [binding_type].
    + destruct (indexOf_found eventTypes "sys-modified");
        cbn; rewrite IH; reflexivity.
    + destruct (indexOf_found eventTypes ty); cbn; rewrite IH; cbn;
        now rewrite <- ?app_assoc.
Qed.

(** A firing of ['persisted'] does not reach the internal handler, whatever
    its body is. *)
Lemma fireLoop_persisted sys sys' data stack : forall st,
  fireLoop sys (split "persisted") data stack st
  = fireLoop sys' (split "persisted") data stack st.
Proof.
  induction stack as [|b rest IH]; intros st; [reflexivity|].
  cbn [fireLoop].
  destruct b as [|ty tag]; cbn [binding_type].
  - change (indexOf_found (split "persisted") "sys-modified") with false.
    cbv iota. rewrite !(bind_return _ _ st st tt) by reflexivity. apply IH.
  - destruct (indexOf_found (split "persisted") ty);
      erewrite !bind_return by reflexivity; apply IH.
Qed.

(** The internal handler under the reviewer of the source. *)
Lemma sysModified_approved items st :
  sysModified Reviewer_review (Some items) st
  = (mkState (eventStack st) items (Some (toJson items))
             (trace st ++ Broadcast items :: Fired "persisted" None
                :: ran ["persisted"%string] None (eventStack st)),
     Return tt).
Proof.
  destruct st as [es ai ls tr].
  unfold sysModified, save, persist, fireWith, storage_save, refresh.
  cbn. rewrite fireLoop_quiet. cbn. now rewrite <- !app_assoc.
Qed.

Lemma fireLoop_approved eventTypes items stack : forall st,
  fireLoop (sysModified Reviewer_review) eventTypes (Some items) stack st
  = (mkState (eventStack st)
             (if hit eventTypes stack then items else allItems st)
             (if hit eventTypes stack then Some (toJson items)
              else localStorage st)
             (trace st ++ delivered (eventStack st) eventTypes items stack),
     Return tt).
Proof.
  unfold hit.
  induction stack as [|b rest IH]; intros st.
  - destruct st. cbn. now rewrite app_nil_r.
  - cbn [fireLoop delivered flat_map existsb]. unfold bind at 1.
    destruct b as [|ty tag]; cbn [binding_type is_internal orb].
    + destruct (indexOf_found eventTypes "sys-modified") eqn:F.
      * rewrite sysModified_approved, IH. cbn.
        rewrite !andb_true_r, <- !app_assoc.
        destruct (existsb is_internal rest); reflexivity.
      * cbn. rewrite IH. now rewrite !andb_false_r.
    + destruct (indexOf_found eventTypes ty); cbn; rewrite IH; cbn;
        now rewrite <- ?app_assoc.
Qed.

Lemma wired_hit st eventTypes :
  wired st -> indexOf_found eventTypes "sys-modified" = true ->
  hit eventTypes (eventStack st) = true.
Proof.
  unfold wired, hit. intros W ->. rewrite andb_true_r.
  induction (eventStack st) as [|b r IH]; [discriminate|].
  destruct b; [reflexivity|]. cbn in *. auto.
Qed.

(** A firing that reaches the internal handler, under the reviewer of the
    source: the list becomes the list in memory and the list in store. *)
Lemma fire_mutation st type items :
  wired st -> indexOf_found (split type) "sys-modified" = true ->
  fireCustomEvent Reviewer_review type (Some items) st
  = (mkState (eventStack st) items (Some (toJson items))
             (trace st ++ Fired type (Some items)
                :: delivered (eventStack st) (split type) items (eventStack st)),
     Return tt).
Proof.
  intros W F. unfold fireCustomEvent, fireWith, bind, log, gets.
  cbn [eventStack]. rewrite fireLoop_approved. cbn.
  rewrite (wired_hit st _ W F), <- app_assoc. reflexivity.
Qed.

Lemma firings_app ty a b : firings ty (a ++ b) = firings ty a ++ firings ty b.
Proof. apply flat_map_app. Qed.

Lemma broadcasts_app a b : broadcasts (a ++ b) = broadcasts a ++ broadcasts b.
Proof. apply flat_map_app. Qed.

Lemma firings_fired ty d tr :
  firings ty (Fired ty d :: tr) = d :: firings ty tr.
Proof. cbn [firings flat_map]. now rewrite String.eqb_refl. Qed.

Lemma broadcasts_fired ty d tr :
  broadcasts (Fired ty d :: tr) = broadcasts tr.
Proof. reflexivity. Qed.

Lemma firings_ran ty tys data stack : firings ty (ran tys data stack) = [].
Proof.
  induction stack as [|b r IH]; [reflexivity|].
  unfold ran. cbn [flat_map]. rewrite firings_app. fold (ran tys data r).
  rewrite IH, app_nil_r.
  destruct b; [reflexivity|]. destruct (indexOf_found tys type); reflexivity.
Qed.

Lemma broadcasts_ran tys data stack : broadcasts (ran tys data stack) = [].
Proof.
  induction stack as [|b r IH]; [reflexivity|].
  unfold ran. cbn [flat_map]. rewrite broadcasts_app. fold (ran tys data r).
  rewrite IH, app_nil_r.
  destruct b; [reflexivity|]. destruct (indexOf_found tys type); reflexivity.
Qed.

Lemma firings_delivered ty full tys items stack :
  String.eqb "persisted" ty = false ->
  firings ty (delivered full tys items stack) = [].
Proof.
  intros N. induction stack as [|b r IH]; [reflexivity|].
  unfold delivered. cbn [flat_map]. rewrite firings_app.
  fold (delivered full tys items r). rewrite IH, app_nil_r.
  destruct (indexOf_found tys (binding_type b)); [|reflexivity].
  destruct b; [|reflexivity].
  cbn [firings flat_map]. rewrite N. cbn [app].
  apply firings_ran.
Qed.

Lemma broadcasts_delivered full tys items stack :
  indexOf_found tys "sys-modified" = true ->
  broadcasts (delivered full tys items stack)
  = repeat items (List.length (filter is_internal stack)).
Proof.
  intros F. induction stack as [|b r IH]; [reflexivity|].
  unfold delivered. cbn [flat_map]. rewrite broadcasts_app.
  fold (delivered full tys items r). rewrite IH.
  destruct b as [|ty tag]; cbn [binding_type filter is_internal].
  - rewrite F. cbn [broadcasts flat_map app List.length repeat].
    fold (broadcasts (ran ["persisted"%string] None full)).
    now rewrite broadcasts_ran.
  - destruct (indexOf_found tys ty); reflexivity.
Qed.

(** ** Lists of items *)

Lemma scanIndex_absent id0 l : forall i idx,
  ~ In id0 (ids l) -> scanIndex id0 l i idx = idx.
Proof.
  induction l as [|x l IH]; intros i idx H; [reflexivity|].
  cbn in *. destruct (Z.eqb_spec (id x) id0); [tauto|].
  apply IH. tauto.
Qed.

Lemma scanIndex_last id0 l1 x l2 : forall i idx,
  id x = id0 -> ~ In id0 (ids l2) ->
  scanIndex id0 (l1 ++ x :: l2) i idx = i + Z.of_nat (List.length l1).
Proof.
  induction l1 as [|y l1 IH]; intros i idx E H.
  - cbn. rewrite scanIndex_absent by assumption.
    rewrite E, Z.eqb_refl. lia.
  - cbn [app scanIndex List.length]. rewrite IH by assumption. lia.
Qed.

Lemma last_occurrence id0 l :
  In id0 (ids l) ->
  exists l1 x l2, l = l1 ++ x :: l2 /\ id x = id0 /\ ~ In id0 (ids l2).
Proof.
  induction l as [|y l IH]; [easy|]. intros H.
  destruct (in_dec Z.eq_dec id0 (ids l)) as [I|N].
  - destruct (IH I) as (l1 & x & l2 & -> & E & F).
    now exists (y :: l1), x, l2.
  - destruct H as [H|H]; [|contradiction].
    now exists [], y, l.
Qed.

Lemma addQtyAt_middle q l1 x l2 :
  addQtyAt (List.length l1) q (l1 ++ x :: l2)
  = l1 ++ mkItem (id x) (qty x + q) :: l2.
Proof. induction l1 as [|y l1 IH]; cbn; [reflexivity | now rewrite IH]. Qed.

Lemma splice_middle {A} (ins : list A) l1 x l2 :
  splice (List.length l1) 1 ins (l1 ++ x :: l2) = l1 ++ ins ++ l2.
Proof.
  unfold splice. rewrite firstn_app, firstn_all, Nat.sub_diag. cbn [firstn].
  rewrite app_nil_r. do 2 f_equal.
  rewrite skipn_app, skipn_all2 by lia.
  replace (List.length l1 + 1 - List.length l1)%nat with 1%nat by lia.
  reflexivity.
Qed.

Lemma filter_absent id0 l :
  ~ In id0 (ids l) -> filter (fun it => id it =? id0) l = [].
Proof.
  induction l as [|x l IH]; [reflexivity|]. cbn. intros H.
  destruct (Z.eqb_spec (id x) id0); [tauto|]. apply IH. tauto.
Qed.

Lemma pop_filter_last id0 l1 x l2 :
  id x = id0 -> ~ In id0 (ids l2) ->
  pop (filter (fun it => id it =? id0) (l1 ++ x :: l2)) = Some x.
Proof.
  intros E H. rewrite filter_app. cbn [filter].
  rewrite E, Z.eqb_refl, (filter_absent id0 l2) by assumption.
  unfold pop. rewrite rev_app_distr. reflexivity.
Qed.

Lemma afterAdd_absent it l :
  ~ In (id it) (ids l) -> afterAdd it l = l ++ [it].
Proof.
  intros H. unfold afterAdd. now rewrite scanIndex_absent.
Qed.

Lemma afterAdd_present it l1 x l2 :
  id x = id it -> ~ In (id it) (ids l2) ->
  afterAdd it (l1 ++ x :: l2)
  = l1 ++ mkItem (id x) (qty x + qty it) :: l2.
Proof.
  intros E H. unfold afterAdd. rewrite scanIndex_last by assumption.
  replace (0 + Z.of_nat (List.length l1) =? -1) with false
    by (symmetry; apply Z.eqb_neq; lia).
  cbn [negb]. rewrite Z.add_0_l, Nat2Z.id. apply addQtyAt_middle.
Qed.

Lemma afterAdd_ids it l :
  ids (afterAdd it l) = if in_dec Z.eq_dec (id it) (ids l) then ids l
                        else ids l ++ [id it].
Proof.
  destruct (in_dec Z.eq_dec (id it) (ids l)) as [I|N].
  - destruct (last_occurrence _ _ I) as (l1 & x & l2 & -> & E & F).
    rewrite afterAdd_present by assumption.
    unfold ids. now rewrite !map_app.
  - rewrite afterAdd_absent by assumption. unfold ids. now rewrite map_app.
Qed.

Lemma afterAdd_NoDup it l : NoDup (ids l) -> NoDup (ids (afterAdd it l)).
Proof.
  intros H. rewrite afterAdd_ids.
  destruct (in_dec Z.eq_dec (id it) (ids l)) as [I|N]; [assumption|].
  apply NoDup_app; [assumption | repeat constructor; easy |].
  intros a Ha [<-|[]]. contradiction.
Qed.

(** ** Reading the cart *)

Lemma getCart_fetch cb st :
  result (getCart cb) st = result storage_fetch st.
Proof.
  unfold result, getCart, bind.
  destruct (storage_fetch st) as [st' [l| |]]; try reflexivity.
  destruct cb; reflexivity.
Qed.

Lemma getCart_stored st l :
  cart_is st l -> getCart None st = (st, Return l).
Proof. intros H. unfold getCart. now rewrite (bind_return _ _ _ _ _ H). Qed.

Lemma getById_stored id0 st l :
  cart_is st l ->
  getById id0 None st
  = (st, Return (mkFound (pop (filter (fun it => id it =? id0) l))
                         (scanIndex id0 l 0 (-1)))).
Proof.
  intros H. unfold getById.
  now rewrite (bind_return _ _ _ _ _ (getCart_stored _ _ H)).
Qed.

Lemma getById_given id0 st l :
  getById id0 (Some l) st
  = (st, Return (mkFound (pop (filter (fun it => id it =? id0) l))
                         (scanIndex id0 l 0 (-1)))).
Proof. reflexivity. Qed.

Lemma wired_mutated type items st : wired st -> wired (mutated type items st).
Proof. exact (fun H => H). Qed.

Lemma cart_mutated type items st : cart_is (mutated type items st) items.
Proof. now apply fetch_written. Qed.

(** ** The event registry: unbinding *)

Lemma nth_error_split_at {A} (l : list A) i b :
  nth_error l i = Some b -> l = firstn i l ++ b :: skipn (S i) l.
Proof.
  revert i. induction l as [|x l IH]; intros [|i] H; try discriminate.
  - now inversion H.
  - cbn. f_equal. now apply IH.
Qed.

(** Unbinding a type leaves the bindings of the other types in the registry,
    in their order. *)
Lemma unbindLoop_keeps_others type keys : forall stack,
  filter (fun b => negb (String.eqb (binding_type b) type))
         (unbindLoop type keys stack)
  = filter (fun b => negb (String.eqb (binding_type b) type)) stack.
Proof.
  induction keys as [|i keys IH]; intros stack; [reflexivity|].
  cbn [unbindLoop]. destruct (nth_error stack i) as [b|] eqn:N; [|apply IH].
  destruct (String.eqb (binding_type b) type) eqn:E; [|apply IH].
  rewrite IH. rewrite (nth_error_split_at _ _ _ N) at 2.
  unfold splice. rewrite !filter_app. cbn [filter app].
  rewrite E. cbn [negb]. now rewrite Nat.add_1_r.
Qed.

Lemma unbindLoop_beyond type keys : forall stack,
  (forall k, In k keys -> (List.length stack <= k)%nat) ->
  unbindLoop type keys stack = stack.
Proof.
  induction keys as [|i keys IH]; intros stack H; [reflexivity|].
  cbn [unbindLoop].
  replace (nth_error stack i) with (@None binding)
    by (symmetry; apply nth_error_None, H; now left).
  apply IH. intros k K. apply H. now right.
Qed.

(** The loop of [unbindEvent], once it has kept [done]. *)
Lemma unbindLoop_sweep type n : forall done rest,
  (List.length rest <= n)%nat ->
  unbindLoop type (seq (List.length done) n) (done ++ rest)
  = done ++ sweep type rest.
Proof.
  induction n as [|n IH]; intros done rest L.
  - destruct rest; [reflexivity | cbn in L; lia].
  - cbn [seq unbindLoop].
    rewrite nth_error_app2, Nat.sub_diag by lia.
    destruct rest as [|b r]; cbn [nth_error sweep].
    + apply unbindLoop_beyond. intros k K. apply in_seq in K.
      rewrite app_nil_r. lia.
    + cbn in L.
      assert (S1 : forall x : binding,
                 S (List.length done) = List.length (done ++ [x]))
        by (intros x; rewrite length_app; cbn; lia).
      destruct (String.eqb (binding_type b) type).
      * rewrite splice_middle. cbn [app]. destruct r as [|b' r'].
        -- apply unbindLoop_beyond. intros k K. apply in_seq in K.
           rewrite app_nil_r. lia.
        -- rewrite (S1 b').
           replace (done ++ b' :: r') with ((done ++ [b']) ++ r')
             by now rewrite <- app_assoc.
           rewrite IH by (cbn in L; lia). now rewrite <- app_assoc.
      * rewrite (S1 b).
        replace (done ++ b :: r) with ((done ++ [b]) ++ r)
          by now rewrite <- app_assoc.
        rewrite IH by lia. now rewrite <- app_assoc.
Qed.

(** [unbindEvent] removes every binding of the type when no two of them are
    neighbours in the registry. *)
Lemma sweep_apart type stack :
  apart type stack = true ->
  sweep type stack
  = filter (fun b => negb (String.eqb (binding_type b) type)) stack.
Proof.
  induction stack as [|b rest IH]; [reflexivity|].
  cbn [apart sweep filter]. destruct rest as [|b' rest'].
  - destruct (String.eqb (binding_type b) type); reflexivity.
  - intros A. apply andb_prop in A. destruct A as [A1 A2].
    specialize (IH A2).
    destruct (String.eqb (binding_type b) type); cbn [negb];
      [|now rewrite IH].
    cbn [andb negb] in A1. apply negb_true_iff in A1.
    cbn [sweep filter] in IH |- *. rewrite A1 in IH |- *. cbn [negb] in *.
    now injection IH as ->.
Qed.

Lemma unbindEvent_sweep type st :
  unbindEvent type st
  = (mkState (sweep type (eventStack st)) (allItems st) (localStorage st)
             (trace st), Return tt).
Proof.
  unfold unbindEvent, bind, gets, set_eventStack. cbn [eventStack].
  now rewrite (unbindLoop_sweep type _ [] (eventStack st)).
Qed.

(** C1 (the registry after [unbindEvent]).  Two handlers are bound to
    ['modified'] one after the other; [unbindEvent('modified')] removes the
    first and steps over the second, which a later firing of ['modified']
    still invokes. *)
Theorem unbindEvent_steps_over_neighbour :
  let st := run (onEvent "modified" 2)
              (run (onEvent "modified" 1) (boot Reviewer_review None)) in
  let st' := run (unbindEvent "modified") st in
  eventStack st = [Internal; External "modified" 1; External "modified" 2]
  /\ eventStack st' = [Internal; External "modified" 2]
  /\ run (fireCustomEvent Reviewer_review "modified" None) st'
     = mkState (eventStack st') (allItems st') (localStorage st')
               (trace st' ++ [Fired "modified" None; Ran 2 None]).
Proof. repeat split. Qed.

(** ** The storage wrapper: claims *)

(** The claim of C2 fails on a record that is not JSON: the error of the
    reader leaves [storage.fetch]. *)
Lemma fetch_malformed_throws :
  fromJson (txt "{") = SyntaxError
  /\ result storage_fetch (fresh (Some (txt "{"))) = Throw SyntaxErr
  /\ result storage_fetch (fresh (Some (txt "{"))) <> Return [].
Proof. repeat split. discriminate. Qed.

Lemma item_beyond v : has_beyond v = true -> item_of_json v = None.
Proof.
  destruct v as [| | | | |fields|]; try reflexivity.
  destruct fields as [|[k1 v1] [|[k2 v2] [|m r]]]; try reflexivity;
    destruct v1; try reflexivity; destruct v2; try reflexivity.
  cbn. discriminate.
Qed.

Lemma items_beyond v : has_beyond v = true -> items_of_json v = None.
Proof.
  destruct v as [| | | |xs| |]; try reflexivity.
  cbn [has_beyond items_of_json].
  induction xs as [|x xs IH]; [discriminate|].
  cbn [existsb items_of_jsons]. intros H.
  apply orb_true_iff in H. destruct H as [H | H].
  - now rewrite (item_beyond x H).
  - rewrite (IH H). now destruct (item_of_json x).
Qed.

(** C2, amended.  [storage.fetch] changes nothing.  It returns the empty
    list when the record is absent or empty.  On a non-empty record it throws
    exactly when the record is not JSON, and what it throws is the error of
    the reader; on a record that is JSON it returns the value of the record,
    be it a list of items or not, which its callers then use as a list of
    items.  The value is the one given when the model holds it ([held]).
    [storage.fetch] returns a non-empty list only when the record
    deserializes to that list. *)
Theorem fetch_outcome : forall st,
  fst (fetch_value st) = st /\ fst (storage_fetch st) = st
  /\ storage_fetch st = (v <- fetch_value ;; as_items v) st
  /\ (localStorage st = None \/ localStorage st = Some [] ->
      result fetch_value st = Return (JArr [])
      /\ result storage_fetch st = Return [])
  /\ (forall s, localStorage st = Some s -> s <> [] ->
      (read s = None <-> fromJson s = SyntaxError)
      /\ (read s = None ->
          result fetch_value st = Throw SyntaxErr
          /\ result storage_fetch st = Throw SyntaxErr)
      /\ (read s <> None ->
          (exists v, result fetch_value st = Return v)
          /\ forall e, result storage_fetch st <> Throw e)
      /\ (forall v, read s = Some v -> held v = true ->
          result fetch_value st = Return v)
      /\ (forall v l, read s = Some v -> items_of_json v = Some l ->
          safe_items l -> result storage_fetch st = Return l))
  /\ (forall v, result fetch_value st = Return v -> v <> JArr [] ->
      exists s, localStorage st = Some s /\ s <> [] /\ read s = Some v)
  /\ (forall l, result storage_fetch st = Return l -> l <> [] ->
      exists s v, localStorage st = Some s /\ read s = Some v
                  /\ items_of_json v = Some l).
Proof.
  intros st.
  assert (V : fetch_value st
              = (st, match localStorage st with
                     | Some (c :: s) =>
                         match read (c :: s) with
                         | Some v => Return v
                         | None => Throw SyntaxErr
                         end
                     | _ => Return (JArr [])
                     end)).
  { unfold fetch_value, bind, getItem, gets.
    destruct (localStorage st) as [[|c s]|]; try reflexivity.
    destruct (read (c :: s)); reflexivity. }
  assert (F : storage_fetch st
              = (st, match localStorage st with
                     | Some (c :: s) =>
                         match read (c :: s) with
                         | Some v =>
                             match items_of_json v with
                             | Some l => Return l
                             | None => Unmodelled
                             end
                         | None => Throw SyntaxErr
                         end
                     | _ => Return []
                     end)).
  { unfold storage_fetch, bind, getItem, gets.
    destruct (localStorage st) as [[|c s]|]; try reflexivity.
    unfold fromJson. destruct (read (c :: s)) as [v|]; [|reflexivity].
    destruct (has_beyond v) eqn:B; [|destruct (items_of_json v); reflexivity].
    now rewrite (items_beyond v B). }
  split; [now rewrite V|]. split; [now rewrite F|].
  split.
  { rewrite F. unfold bind. rewrite V. unfold as_items.
    destruct (localStorage st) as [[|c s]|]; try reflexivity.
    destruct (read (c :: s)) as [v|]; [|reflexivity].
    destruct (items_of_json v); reflexivity. }
  unfold result. rewrite V, F. cbn [snd].
  split; [intros [-> | ->]; split; reflexivity|].
  split.
  - intros s -> N. destruct s as [|c s]; [contradiction|].
    split.
    { unfold fromJson. destruct (read (c :: s)) as [v|].
      - split; [discriminate | now destruct (has_beyond v)].
      - split; reflexivity. }
    split; [intros ->; split; reflexivity|].
    split.
    { intros P. destruct (read (c :: s)) as [v|]; [|contradiction].
      split; [now exists v|].
      intros e. destruct (items_of_json v); discriminate. }
    split; [now intros v -> _ | now intros v l -> -> _].
  - split.
    { intros v. destruct (localStorage st) as [[|c s]|].
      - intros [= <-]. contradiction.
      - destruct (read (c :: s)) as [w|] eqn:P; try discriminate.
        intros [= <-] _. now exists (c :: s).
      - intros [= <-]. contradiction. }
    intros l. destruct (localStorage st) as [[|c s]|].
    + intros [= <-]. contradiction.
    + destruct (read (c :: s)) as [v|] eqn:P; try discriminate.
      destruct (items_of_json v) as [l'|] eqn:I; try discriminate.
      intros [= <-] _. now exists (c :: s), v.
    + intros [= <-]. contradiction.
Qed.

Lemma fetch_outcome_witness :
  (result fetch_value (fresh (Some (txt "[1.]"))) = Throw SyntaxErr
   /\ result storage_fetch (fresh (Some (txt "[1.]"))) = Throw SyntaxErr)
  /\ result fetch_value (fresh (Some (txt "null"))) = Return JNull
  /\ (exists v, result fetch_value (fresh (Some (txt "[1.5]"))) = Return v)
  /\ result storage_fetch (fresh (Some (toJson [mkItem 1 2])))
     = Return [mkItem 1 2].
Proof.
  split; [|split; [|split]].
  - destruct (fetch_outcome (fresh (Some (txt "[1.]"))))
      as (_ & _ & _ & _ & H & _).
    destruct (H (txt "[1.]") eq_refl) as (_ & S & _); [discriminate|].
    apply S. reflexivity.
  - destruct (fetch_outcome (fresh (Some (txt "null"))))
      as (_ & _ & _ & _ & H & _).
    destruct (H (txt "null") eq_refl) as (_ & _ & _ & V & _); [discriminate|].
    apply V; reflexivity.
  - destruct (fetch_outcome (fresh (Some (txt "[1.5]"))))
      as (_ & _ & _ & _ & H & _).
    destruct (H (txt "[1.5]") eq_refl) as (_ & _ & R & _); [discriminate|].
    apply R. discriminate.
  - destruct (fetch_outcome (fresh (Some (toJson [mkItem 1 2]))))
      as (_ & _ & _ & _ & H & _).
    destruct (H (toJson [mkItem 1 2]) eq_refl) as (_ & _ & _ & _ & I);
      [discriminate|].
    apply (I (JArr [json_of_item (mkItem 1 2)])); try reflexivity.
    repeat constructor; cbn; unfold safe; lia.
Defined.

(** C9.  What [storage.save] writes, [storage.fetch] reads back: the list is
    the original one.  From an absent or empty record [storage.fetch] reads
    the empty list. *)
Theorem save_fetch_roundtrip : forall st l,
  result storage_fetch (run (storage_save l) st) = Return l
  /\ result storage_fetch
       (mkState (eventStack st) (allItems st) None (trace st)) = Return []
  /\ result storage_fetch
       (mkState (eventStack st) (allItems st) (Some []) (trace st)) = Return [].
Proof.
  intros st l. repeat split.
  unfold result. now rewrite (fetch_written (run (storage_save l) st) l).
Qed.

(** ** Saving *)

(** C3.  [save] under a review that rejects changes nothing, the record in
    store included, and throws the reason given; under a review that
    approves it writes the list in memory to the store and fires
    ['persisted']. *)
Theorem save_gated : forall review st,
  match review st with
  | Reject err => save review st = (st, Throw (Rejected err))
  | Approve =>
      save review st
      = (mkState (eventStack st) (allItems st)
                 (Some (toJson (allItems st)))
                 (trace st ++ Fired "persisted" None
                    :: ran ["persisted"%string] None (eventStack st)),
         Return tt)
      /\ cart_is (run (save review) st) (allItems st)
  end.
Proof.
  intros review st.
  assert (E : forall d, review st = d ->
              save review st
              = match d with
                | Approve => persist st
                | Reject err => (st, Throw (Rejected err))
                end).
  { intros d <-. unfold save, bind, gets. destruct (review st); reflexivity. }
  destruct (review st) eqn:R; rewrite (E _ eq_refl); [|reflexivity].
  assert (P : persist st
              = (mkState (eventStack st) (allItems st)
                   (Some (toJson (allItems st)))
                   (trace st ++ Fired "persisted" None
                      :: ran ["persisted"%string] None (eventStack st)),
                 Return tt)).
  { destruct st. unfold persist, fireWith, storage_save. cbn.
    rewrite fireLoop_quiet. cbn. now rewrite <- app_assoc. }
  split; [exact P|].
  unfold run. rewrite (E _ eq_refl), P. now apply fetch_written.
Qed.

(** ** Adding *)

(** [addMockData] of the [Store] controller, on an empty store. *)
Example addMockData :
  let st := run (addItem Reviewer_review (Some 3) None)
              (run (addItems Reviewer_review [mkItem 1 100; mkItem 2 100])
                   (boot Reviewer_review None)) in
  result (getCart None) st = Return [mkItem 1 100; mkItem 2 100; mkItem 3 1]
  /\ result (getCart None) (run (clear Reviewer_review) st) = Return [].
Proof. repeat split. Qed.

Lemma found_sys_modified :
  indexOf_found (split "modified added sys-modified") "sys-modified" = true
  /\ indexOf_found (split "modified removed sys-modified") "sys-modified" = true
  /\ indexOf_found (split "modified updated sys-modified") "sys-modified" = true
  /\ indexOf_found (split "modified removed cleared sys-modified")
                   "sys-modified" = true.
Proof. repeat split. Qed.

Lemma addOne_approved it l st :
  wired st ->
  addOne Reviewer_review it l st
  = (mutated "modified added sys-modified" (afterAdd it l) st,
     Return (afterAdd it l)).
Proof.
  intros W. unfold addOne.
  rewrite (bind_return _ _ _ _ _ (getById_given (id it) st l)).
  cbn [index]. fold (afterAdd it l).
  erewrite bind_return
    by (apply fire_mutation; [assumption | apply found_sys_modified]).
  reflexivity.
Qed.

Lemma last_cons {A} (s : list A) : forall x d, last (x :: s) d = last s x.
Proof.
  induction s as [|y s IH]; intros x d; [reflexivity|].
  change (last (x :: y :: s) d) with (last (y :: s) d).
  now rewrite !IH.
Qed.

Lemma addLoop_approved items : forall l st,
  wired st ->
  addLoop Reviewer_review items l st
  = (added items l st, Return (last (snapshots items l) l)).
Proof.
  induction items as [|it rest IH]; intros l st W; [reflexivity|].
  cbn [addLoop added]. 
  rewrite (bind_return _ _ _ _ _ (addOne_approved it l st W)).
  rewrite IH by now apply wired_mutated.
  cbn [snapshots]. now rewrite last_cons.
Qed.

Lemma addItems_approved items l st :
  wired st -> cart_is st l ->
  addItems Reviewer_review items st
  = (added items l st, Return (last (snapshots items l) l)).
Proof.
  intros W C. unfold addItems.
  rewrite (bind_return _ _ _ _ _ (getCart_stored _ _ C)).
  now apply addLoop_approved.
Qed.

Lemma added_eventStack items : forall l st,
  eventStack (added items l st) = eventStack st.
Proof.
  induction items as [|it rest IH]; intros l st; [reflexivity|].
  cbn [added]. now rewrite IH.
Qed.

Lemma added_store items : forall l st,
  items <> [] ->
  localStorage (added items l st) = Some (toJson (last (snapshots items l) l))
  /\ allItems (added items l st) = last (snapshots items l) l.
Proof.
  induction items as [|it rest IH]; intros l st N; [contradiction|].
  cbn [added snapshots]. rewrite last_cons. destruct rest as [|it' rest].
  - split; reflexivity.
  - apply IH. discriminate.
Qed.

Lemma added_cart items l st :
  cart_is st l -> cart_is (added items l st) (last (snapshots items l) l).
Proof.
  intros C. destruct items as [|it rest]; [exact C|].
  apply fetch_written. now apply added_store.
Qed.

Lemma added_trace items : forall l st,
  wired st ->
  exists new,
    trace (added items l st) = trace st ++ new
    /\ firings "modified added sys-modified" new = map Some (snapshots items l)
    /\ broadcasts new = snapshots items l.
Proof.
  induction items as [|it rest IH]; intros l st W.
  - exists []. cbn. now rewrite app_nil_r.
  - cbn [added snapshots].
    destruct (IH (afterAdd it l)
                 (mutated "modified added sys-modified" (afterAdd it l) st)
                 (wired_mutated _ _ _ W)) as (new & T & F & B).
    eexists. split; [rewrite T; cbn [mutated trace]; rewrite <- app_assoc;
                     reflexivity|].
    split.
    + rewrite firings_app, firings_fired, firings_delivered by reflexivity.
      rewrite F. reflexivity.
    + rewrite broadcasts_app, broadcasts_fired, broadcasts_delivered
        by apply found_sys_modified.
      rewrite W, B. reflexivity.
Qed.

Lemma snapshots_length items : forall l,
  List.length (snapshots items l) = List.length items.
Proof.
  induction items as [|it rest IH]; intros l; [reflexivity|].
  cbn. now rewrite IH.
Qed.

Lemma snapshots_NoDup items : forall l,
  NoDup (ids l) -> NoDup (ids (last (snapshots items l) l)).
Proof.
  induction items as [|it rest IH]; intros l H; [exact H|].
  cbn [snapshots]. rewrite last_cons. now apply IH, afterAdd_NoDup.
Qed.

Lemma snapshots_nth items : forall l k,
  (k < List.length items)%nat ->
  nth_error (snapshots items l) k
  = Some (last (snapshots (firstn (S k) items) l) l).
Proof.
  induction items as [|it rest IH]; intros l k H; [cbn in H; lia|].
  destruct k as [|k].
  - reflexivity.
  - cbn [snapshots nth_error]. rewrite IH by (cbn in H; lia).
    change (firstn (S (S k)) (it :: rest)) with (it :: firstn (S k) rest).
    cbn [snapshots]. now rewrite last_cons.
Qed.

(** C4.  An entry whose id is not in the cart is appended with its quantity
    ([addItem] passes the quantity given, and 1 when none is given); an entry
    whose id is in the cart adds its quantity to the quantity of that item
    and appends nothing, so that a cart without two items of one id stays so.
    This holds for any number of entries added at once.  Ids and quantities
    are integers up to 2^53 in magnitude, and so is the sum where one is
    stated.  [addItem(5, 2)] then [addItem(5, 3)] on the empty cart leaves
    the single item [{id:5, qty:5}]. *)
Theorem addItem_appends_or_increments :
  (forall st l id0 q,
     wired st -> cart_is st l -> safe_items l -> safe id0 -> safe q ->
     exists st' l',
       addItems Reviewer_review [mkItem id0 q] st = (st', Return l')
       /\ (q <> 0 ->
           addItem Reviewer_review (Some id0) (Some q) st = (st', Return l'))
       /\ (q = 1 ->
           addItem Reviewer_review (Some id0) None st = (st', Return l'))
       /\ wired st' /\ cart_is st' l' /\ allItems st' = l'
       /\ (~ In id0 (ids l) -> l' = l ++ [mkItem id0 q])
       /\ (forall l1 x l2,
             l = l1 ++ x :: l2 -> id x = id0 -> ~ In id0 (ids l2) ->
             safe (qty x + q) ->
             l' = l1 ++ mkItem id0 (qty x + q) :: l2)
       /\ (NoDup (ids l) -> NoDup (ids l')))
  /\ (forall st l items,
        wired st -> cart_is st l -> NoDup (ids l) ->
        safe_items l -> safe_items items ->
        exists st' l',
          addItems Reviewer_review items st = (st', Return l')
          /\ cart_is st' l' /\ NoDup (ids l'))
  /\ result (getCart None)
       (run (addItem Reviewer_review (Some 5) (Some 3))
          (run (addItem Reviewer_review (Some 5) (Some 2))
             (boot Reviewer_review None)))
     = Return [mkItem 5 5].
Proof.
  split; [|split; [|reflexivity]]; cycle 1.
  { intros st l items W C D _ _. eexists _, _.
    split; [exact (addItems_approved items l st W C)|].
    split; [now apply added_cart | now apply snapshots_NoDup]. }
  intros st l id0 q W C _ _ _.
  pose proof (addItems_approved [mkItem id0 q] l st W C) as E.
  cbn [added snapshots last] in E.
  eexists _, _. split; [exact E|].
  split.
  { intros N. unfold addItem, orOne.
    destruct (Z.eqb_spec q 0); [contradiction | exact E]. }
  split.
  { intros ->. exact E. }
  split; [now apply wired_mutated|].
  split; [apply cart_mutated|].
  split; [reflexivity|].
  split; [intros N; now apply afterAdd_absent|].
  split.
  - intros l1 x l2 -> I N _. rewrite afterAdd_present; cbn [id qty]; auto.
    now rewrite I.
  - apply afterAdd_NoDup.
Qed.

Lemma addItem_appends_or_increments_witness :
  exists st' l',
    addItems Reviewer_review [mkItem 5 3]
      (run (addItem Reviewer_review (Some 5) (Some 2))
           (boot Reviewer_review None))
    = (st', Return l')
    /\ l' = [] ++ mkItem 5 (2 + 3) :: [].
Proof.
  assert (S : safe_items [mkItem 5 2])
    by (repeat constructor; unfold safe; cbn; lia).
  assert (S5 : safe 5) by (unfold safe; lia).
  assert (S3 : safe 3) by (unfold safe; lia).
  destruct (proj1 addItem_appends_or_increments
              (run (addItem Reviewer_review (Some 5) (Some 2))
                   (boot Reviewer_review None))
              [mkItem 5 2] 5 3 eq_refl eq_refl S S5 S3)
    as (st' & l' & E & _ & _ & _ & _ & _ & _ & P & _).
  exists st', l'. split; [exact E|].
  apply (P [] (mkItem 5 2) []); [reflexivity | reflexivity | |].
  - intros [].
  - unfold safe; cbn; lia.
Defined.

(** C10.  A quantity of 0, like a quantity left out, is replaced by 1:
    [addItem(id, 0)] is [addItem(id, 1)], which is [addItems] on the single
    entry of that id and quantity 1.  On a cart without the id the item is
    appended with quantity 1; on a cart with it the quantity of that item
    grows by 1 (integers up to 2^53 in magnitude, the sum included). *)
Theorem addItem_falsy_qty : forall review id0 st,
  addItem review id0 (Some 0) st = addItem review id0 (Some 1) st
  /\ addItem review id0 None st = addItem review id0 (Some 1) st
  /\ (forall i, id0 = Some i ->
      addItem review id0 (Some 0) st = addItems review [mkItem i 1] st)
  /\ (forall i l q,
        id0 = Some i -> q = Some 0 \/ q = None ->
        wired st -> cart_is st l -> safe_items l -> safe i ->
        exists st' l',
          addItem Reviewer_review id0 q st = (st', Return l')
          /\ cart_is st' l' /\ allItems st' = l'
          /\ localStorage st' = Some (toJson l')
          /\ (~ In i (ids l) -> l' = l ++ [mkItem i 1])
          /\ (forall l1 x l2,
                l = l1 ++ x :: l2 -> id x = i -> ~ In i (ids l2) ->
                safe (qty x + 1) ->
                l' = l1 ++ mkItem i (qty x + 1) :: l2))
  /\ result (addItem Reviewer_review (Some 7) (Some 0))
            (boot Reviewer_review None) = Return [mkItem 7 1].
Proof.
  intros review id0 st.
  split; [reflexivity|]. split; [reflexivity|].
  split; [now intros i ->|]. split; [|reflexivity].
  intros i l q -> Q W C _ _.
  assert (E : addItem Reviewer_review (Some i) q st
              = addItems Reviewer_review [mkItem i 1] st)
    by (destruct Q as [-> | ->]; reflexivity).
  rewrite E, (addItems_approved [mkItem i 1] l st W C).
  cbn [added snapshots last].
  eexists _, _. split; [reflexivity|].
  split; [apply cart_mutated|].
  split; [reflexivity|]. split; [reflexivity|].
  split; [intros N; now apply afterAdd_absent|].
  intros l1 x l2 -> I N _. rewrite afterAdd_present; cbn [id qty]; auto.
  now rewrite I.
Qed.

Lemma addItem_falsy_qty_witness :
  exists st' l',
    addItem Reviewer_review (Some 7) (Some 0)
      (run (addItem Reviewer_review (Some 7) (Some 2))
           (boot Reviewer_review None))
    = (st', Return l')
    /\ localStorage st' = Some (toJson l')
    /\ l' = [] ++ mkItem 7 (2 + 1) :: [].
Proof.
  assert (S : safe_items [mkItem 7 2])
    by (repeat constructor; unfold safe; cbn; lia).
  assert (S7 : safe 7) by (unfold safe; lia).
  destruct (addItem_falsy_qty Reviewer_review (Some 7)
              (run (addItem Reviewer_review (Some 7) (Some 2))
                   (boot Reviewer_review None)))
    as (_ & _ & _ & H & _).
  destruct (H 7 [mkItem 7 2] (Some 0) eq_refl (or_introl eq_refl)
              eq_refl eq_refl S S7)
    as (st' & l' & E & _ & _ & L & _ & P).
  exists st', l'. split; [exact E|]. split; [exact L|].
  apply (P [] (mkItem 7 2) []); [reflexivity | reflexivity | |].
  - intros [].
  - unfold safe; cbn; lia.
Defined.

(** C5.  [addItems] on n entries fires ['modified added sys-modified'] n
    times, once after each entry, each time with the list as it is after that
    entry; the internal handler broadcasts each of these lists once; the list
    in store at the end is the last of them, and it is the list returned. *)
Theorem addItems_fires_per_entry : forall st l items,
  wired st -> cart_is st l ->
  exists st' final new,
    addItems Reviewer_review items st = (st', Return final)
    /\ trace st' = trace st ++ new
    /\ firings "modified added sys-modified" new
       = map Some (snapshots items l)
    /\ List.length (firings "modified added sys-modified" new)
       = List.length items
    /\ broadcasts new = snapshots items l
    /\ (forall k, (k < List.length items)%nat ->
        exists c, nth_error (snapshots items l) k = Some c
                  /\ result (addItems Reviewer_review (firstn (S k) items)) st
                     = Return c)
    /\ final = last (snapshots items l) l
    /\ cart_is st' final
    /\ (items <> [] ->
        localStorage st' = Some (toJson final) /\ allItems st' = final).
Proof.
  intros st l items W C.
  destruct (added_trace items l st W) as (new & T & F & B).
  exists (added items l st), (last (snapshots items l) l), new.
  split; [now apply addItems_approved|].
  split; [exact T|].
  split; [exact F|].
  split; [now rewrite F, length_map, snapshots_length|].
  split; [exact B|].
  split.
  { intros k H. eexists. split; [now apply snapshots_nth|].
    unfold result. now rewrite (addItems_approved _ l st W C). }
  split; [reflexivity|].
  split; [now apply added_cart|].
  apply added_store.
Qed.

Lemma addItems_fires_per_entry_witness :
  exists st' final new,
    addItems Reviewer_review [mkItem 1 100; mkItem 2 100; mkItem 1 1]
             (boot Reviewer_review None) = (st', Return final)
    /\ trace st' = trace (boot Reviewer_review None) ++ new
    /\ firings "modified added sys-modified" new
       = [Some [mkItem 1 100];
          Some [mkItem 1 100; mkItem 2 100];
          Some [mkItem 1 101; mkItem 2 100]]
    /\ final = [mkItem 1 101; mkItem 2 100].
Proof.
  destruct (addItems_fires_per_entry (boot Reviewer_review None) []
              [mkItem 1 100; mkItem 2 100; mkItem 1 1] eq_refl eq_refl)
    as (st' & final & new & E & T & F & _ & _ & _ & L & _).
  exists st', final, new. repeat split; assumption.
Defined.

(** ** Reading the cart: claims *)

(** The claim of C6 fails: [getCart] reads the store each time.  A second
    call before any change still hands over the stored list, which the list
    in memory never received; and after a change whose save the review
    rejected, the list in memory holds the change while [getCart] hands over
    what the store holds. *)
Lemma getCart_not_from_memory :
  (let st := run (getCart None)
               (boot Reviewer_review (Some (toJson [mkItem 1 2]))) in
   allItems st = []
   /\ result (getCart None) st = Return [mkItem 1 2])
  /\ (let review := fun _ : state => Reject "no" in
      let st := run (addItem review (Some 1) (Some 1)) (boot review None) in
      result (addItem review (Some 1) (Some 1)) (boot review None)
      = Throw (Rejected "no")
      /\ allItems st = [mkItem 1 1]
      /\ localStorage st = None
      /\ result (getCart None) st = Return []).
Proof. repeat split. Qed.

(** C6, amended.  [getCart] hands over a fresh read of the store on every
    call, whatever the list in memory is: the list the stored record
    deserializes to, and the empty list when the record is absent or
    empty. *)
Theorem getCart_reads_store : forall st cb mem,
  let st' := mkState (eventStack st) mem (localStorage st) (trace st) in
  result (getCart cb) st' = result storage_fetch st
  /\ (forall l, localStorage st = Some (toJson l) ->
      result (getCart cb) st' = Return l)
  /\ (localStorage st = None \/ localStorage st = Some [] ->
      result (getCart cb) st' = Return []).
Proof.
  intros st cb mem st'.
  assert (E : result (getCart cb) st' = result storage_fetch st).
  { rewrite getCart_fetch. unfold result, storage_fetch, bind, getItem, gets.
    subst st'. cbn [localStorage].
    destruct (localStorage st) as [[|c s]|]; try reflexivity.
    destruct (fromJson (c :: s)); try reflexivity.
    destruct (items_of_json v); reflexivity. }
  split; [exact E|]. rewrite E. split.
  - intros l H. unfold result. now rewrite (fetch_written st l H).
  - apply fetch_empty.
Qed.

Lemma getCart_reads_store_witness :
  result (getCart None)
         (mkState [Internal] [mkItem 9 9] (Some (toJson [mkItem 1 2])) [])
  = Return [mkItem 1 2].
Proof.
  apply (proj1 (proj2 (getCart_reads_store
                 (mkState [Internal] [] (Some (toJson [mkItem 1 2])) [])
                 None [mkItem 9 9])) [mkItem 1 2]).
  reflexivity.
Defined.

(** ** Removing and updating *)

Lemma filter_keep id0 l :
  ~ In id0 (ids l) -> filter (fun it => negb (id it =? id0)) l = l.
Proof.
  induction l as [|x l IH]; [reflexivity|]. cbn. intros H.
  destruct (Z.eqb_spec (id x) id0); [tauto|]. cbn. f_equal. apply IH. tauto.
Qed.

Lemma filter_unique l1 x l2 :
  NoDup (ids (l1 ++ x :: l2)) ->
  filter (fun it => negb (id it =? id x)) (l1 ++ x :: l2) = l1 ++ l2.
Proof.
  unfold ids. rewrite map_app. cbn [map]. intros H.
  apply NoDup_remove_2 in H. rewrite in_app_iff in H.
  rewrite filter_app. cbn [filter]. rewrite Z.eqb_refl. cbn [negb].
  rewrite !filter_keep; [reflexivity | |]; unfold ids; tauto.
Qed.

Lemma index_found (l1 : list Item) :
  (0 + Z.of_nat (List.length l1) =? -1) = false.
Proof. apply Z.eqb_neq. lia. Qed.

Lemma remove_present st l1 x l2 :
  wired st -> cart_is st (l1 ++ x :: l2) -> ~ In (id x) (ids l2) ->
  remove Reviewer_review (id x) st
  = (mutated "modified removed sys-modified" (l1 ++ l2) st, Return true).
Proof.
  intros W C N. unfold remove.
  rewrite (bind_return _ _ _ _ _ (getById_stored _ _ _ C)).
  rewrite (bind_return _ _ _ _ _ (getCart_stored _ _ C)).
  cbn [index]. rewrite scanIndex_last, index_found by auto.
  cbn [negb]. rewrite Z.add_0_l, Nat2Z.id, splice_middle. cbn [app].
  erewrite bind_return
    by (apply fire_mutation; [assumption | apply found_sys_modified]).
  reflexivity.
Qed.

Lemma remove_absent review st l id0 :
  cart_is st l -> ~ In id0 (ids l) ->
  remove review id0 st = (st, Return false).
Proof.
  intros C N. unfold remove.
  rewrite (bind_return _ _ _ _ _ (getById_stored _ _ _ C)).
  rewrite (bind_return _ _ _ _ _ (getCart_stored _ _ C)).
  cbn [index]. now rewrite scanIndex_absent.
Qed.

(** C7.  [remove(id)] on a cart that holds the id returns [true] and leaves
    the cart without that item, the other items in their order; on a cart
    that does not hold the id it returns [false], throws nothing and changes
    nothing.  It returns [true] exactly when the id was in the cart. *)
Theorem remove_iff_present : forall st l id0,
  wired st -> cart_is st l ->
  (forall l1 x l2,
     l = l1 ++ x :: l2 -> id x = id0 -> ~ In id0 (ids l2) ->
     remove Reviewer_review id0 st
     = (mutated "modified removed sys-modified" (l1 ++ l2) st, Return true)
     /\ cart_is (run (remove Reviewer_review id0) st) (l1 ++ l2)
     /\ (NoDup (ids l) ->
         l1 ++ l2 = filter (fun it => negb (id it =? id0)) l))
  /\ (~ In id0 (ids l) -> remove Reviewer_review id0 st = (st, Return false))
  /\ (result (remove Reviewer_review id0) st = Return true <-> In id0 (ids l)).
Proof.
  intros st l id0 W C.
  assert (P : forall l1 x l2,
             l = l1 ++ x :: l2 -> id x = id0 -> ~ In id0 (ids l2) ->
             remove Reviewer_review id0 st
             = (mutated "modified removed sys-modified" (l1 ++ l2) st,
                Return true)).
  { intros l1 x l2 -> <- N. now apply remove_present. }
  split; [|split].
  - intros l1 x l2 E I N. split; [now apply (P l1 x l2)|]. split.
    + unfold run. rewrite (P l1 x l2 E I N). apply cart_mutated.
    + intros D. subst l id0. symmetry. now apply filter_unique.
  - now apply remove_absent.
  - split.
    + intros R. destruct (in_dec Z.eq_dec id0 (ids l)) as [I|N]; [exact I|].
      unfold result in R. rewrite (remove_absent _ st l id0 C N) in R.
      discriminate.
    + intros I. destruct (last_occurrence _ _ I) as (l1 & x & l2 & E & J & N).
      unfold result. now rewrite (P l1 x l2 E J N).
Qed.

Lemma remove_iff_present_witness :
  result (remove Reviewer_review 2)
         (run (addItems Reviewer_review [mkItem 1 100; mkItem 2 100])
              (boot Reviewer_review None))
  = Return true.
Proof.
  apply (proj2 (proj2 (proj2 (remove_iff_present
           (run (addItems Reviewer_review [mkItem 1 100; mkItem 2 100])
                (boot Reviewer_review None))
           [mkItem 1 100; mkItem 2 100] 2 eq_refl eq_refl)))).
  cbn. tauto.
Defined.

Lemma changeQuantity_present st l1 x l2 q cb :
  wired st -> cart_is st (l1 ++ x :: l2) -> ~ In (id x) (ids l2) ->
  changeQuantity Reviewer_review (id x) q cb st
  = (run (callback cb (l1 ++ mkItem (id x) q :: l2))
         (mutated "modified updated sys-modified"
                  (l1 ++ mkItem (id x) q :: l2) st),
     Return true).
Proof.
  intros W C N. unfold changeQuantity.
  rewrite (bind_return _ _ _ _ _ (getCart_stored _ _ C)).
  rewrite (bind_return _ _ _ _ _ (getById_stored _ _ _ C)).
  cbn [index item]. rewrite scanIndex_last, index_found by auto.
  rewrite pop_filter_last by auto.
  cbn [negb]. rewrite Z.add_0_l, Nat2Z.id, splice_middle. cbn [app].
  erewrite bind_return
    by (apply fire_mutation; [assumption | apply found_sys_modified]).
  destruct cb; reflexivity.
Qed.

Lemma changeQuantity_absent review st l id0 q cb :
  cart_is st l -> ~ In id0 (ids l) ->
  changeQuantity review id0 q cb st = (st, Return false).
Proof.
  intros C N. unfold changeQuantity.
  rewrite (bind_return _ _ _ _ _ (getCart_stored _ _ C)).
  rewrite (bind_return _ _ _ _ _ (getById_stored _ _ _ C)).
  cbn [index]. now rewrite scanIndex_absent.
Qed.

Lemma cart_callback cb items st l :
  cart_is st l -> cart_is (run (callback cb items) st) l.
Proof.
  destruct cb; [|exact (fun H => H)].
  unfold cart_is, storage_fetch, bind, getItem, gets. cbn.
  destruct (localStorage st) as [[|c s]|]; try now intros [= <-].
  destruct (fromJson (c :: s)); try discriminate.
  destruct (items_of_json v); try discriminate. now intros [= <-].
Qed.

(** C8.  [changeQuantity(id, n)] on a cart that holds the id returns [true]
    and leaves the cart with the quantity of that item replaced by n, at the
    same place, the other items as they were; on a cart that does not hold
    the id it returns [false] and changes nothing: no list is written and no
    event is fired.  It returns [true] exactly when the id was in the cart. *)
Theorem changeQuantity_iff_present : forall st l id0 n cb,
  wired st -> cart_is st l ->
  (forall l1 x l2,
     l = l1 ++ x :: l2 -> id x = id0 -> ~ In id0 (ids l2) ->
     let l' := l1 ++ mkItem id0 n :: l2 in
     changeQuantity Reviewer_review id0 n cb st
     = (run (callback cb l')
            (mutated "modified updated sys-modified" l' st), Return true)
     /\ cart_is (run (changeQuantity Reviewer_review id0 n cb) st) l'
     /\ allItems (run (changeQuantity Reviewer_review id0 n cb) st) = l')
  /\ (~ In id0 (ids l) ->
      changeQuantity Reviewer_review id0 n cb st = (st, Return false))
  /\ (result (changeQuantity Reviewer_review id0 n cb) st = Return true
      <-> In id0 (ids l)).
Proof.
  intros st l id0 n cb W C.
  assert (P : forall l1 x l2,
             l = l1 ++ x :: l2 -> id x = id0 -> ~ In id0 (ids l2) ->
             changeQuantity Reviewer_review id0 n cb st
             = (run (callback cb (l1 ++ mkItem id0 n :: l2))
                    (mutated "modified updated sys-modified"
                             (l1 ++ mkItem id0 n :: l2) st), Return true)).
  { intros l1 x l2 -> <- N. now apply changeQuantity_present. }
  split; [|split].
  - intros l1 x l2 E I N l'. split; [now apply (P l1 x l2)|].
    assert (R : run (changeQuantity Reviewer_review id0 n cb) st
                = run (callback cb l')
                      (mutated "modified updated sys-modified" l' st))
      by (unfold run at 1; now rewrite (P l1 x l2 E I N)).
    rewrite R. split.
    + apply cart_callback, cart_mutated.
    + destruct cb; reflexivity.
  - now apply changeQuantity_absent.
  - split.
    + intros R. destruct (in_dec Z.eq_dec id0 (ids l)) as [I|N]; [exact I|].
      unfold result in R.
      rewrite (changeQuantity_absent _ st l id0 n cb C N) in R.
      discriminate.
    + intros I. destruct (last_occurrence _ _ I) as (l1 & x & l2 & E & J & N).
      unfold result. now rewrite (P l1 x l2 E J N).
Qed.

Lemma changeQuantity_iff_present_witness :
  result (changeQuantity Reviewer_review 2 10 None)
         (run (addItems Reviewer_review [mkItem 1 100; mkItem 2 100])
              (boot Reviewer_review None))
  = Return true.
Proof.
  apply (proj2 (proj2 (proj2 (changeQuantity_iff_present
           (run (addItems Reviewer_review [mkItem 1 100; mkItem 2 100])
                (boot Reviewer_review None))
           [mkItem 1 100; mkItem 2 100] 2 10 None eq_refl eq_refl)))).
  cbn. tauto.
Defined.

(** * Further properties *)

(** ** Event types *)

Lemma split_nonempty s : split s <> [].
Proof.
  induction s as [|c r IH]; [discriminate|].
  cbn [split]. destruct (split r) as [|w ws]; [contradiction|].
  destruct (Ascii.eqb c " "); discriminate.
Qed.

Lemma split_pieces_space_free s : forall w,
  In w (split s) -> has_space w = false.
Proof.
  induction s as [|c r IH]; intros w H.
  - destruct H as [<-|[]]. reflexivity.
  - cbn [split] in H. destruct (split r) as [|w0 ws]; [destruct H|].
    destruct (Ascii.eqb c " ") eqn:E.
    + destruct H as [<-|H]; [reflexivity | now apply IH].
    + destruct H as [<-|H].
      * cbn [has_space]. rewrite E. apply IH. now left.
      * apply IH. now right.
Qed.

Lemma concat_split s : String.concat " " (split s) = s.
Proof.
  induction s as [|c r IH]; [reflexivity|].
  cbn [split]. pose proof (split_nonempty r) as N.
  destruct (split r) as [|w ws]; [contradiction|].
  destruct (Ascii.eqb_spec c " ") as [->|_].
  - change (String.concat " " (EmptyString :: w :: ws))
      with (String " " (String.concat " " (w :: ws))).
    now rewrite IH.
  - destruct ws as [|w' ws].
    + cbn in *. now rewrite IH.
    + change (String.concat " " (String c w :: w' :: ws))
        with (String c (String.concat " " (w :: w' :: ws))).
      now rewrite IH.
Qed.

Lemma split_space_free s : has_space s = false -> split s = [s].
Proof.
  induction s as [|c r IH]; [reflexivity|].
  cbn [has_space split]. intros H. apply orb_false_iff in H.
  destruct H as [E H]. now rewrite (IH H), E.
Qed.

(** [type.split(' ')] cuts the type string at every space: the pieces
    hold no space, there is at least one, and joined with a space between
    them they give the string back. *)
Theorem split_join : forall s,
  String.concat " " (split s) = s
  /\ split s <> []
  /\ (forall w, In w (split s) -> has_space w = false).
Proof.
  intros s. split; [apply concat_split|].
  split; [apply split_nonempty | apply split_pieces_space_free].
Qed.

Lemma split_join_witness :
  has_space "added" = false.
Proof.
  apply (proj2 (proj2 (split_join "modified added sys-modified")) "added"%string).
  cbn. tauto.
Defined.

Lemma space_type_unfound type s :
  has_space type = true -> indexOf_found (split s) type = false.
Proof.
  intros H. unfold indexOf_found.
  pose proof (split_pieces_space_free s) as P.
  induction (split s) as [|w ws IH]; [reflexivity|].
  cbn [existsb]. rewrite IH by (intros v V; apply P; now right).
  destruct (String.eqb_spec type w) as [->|_]; [|reflexivity].
  rewrite (P w) in H by now left. discriminate.
Qed.

Lemma space_free_found type :
  has_space type = false -> indexOf_found (split type) type = true.
Proof.
  intros H. rewrite (split_space_free type H). unfold indexOf_found.
  cbn [existsb]. now rewrite String.eqb_refl.
Qed.

(** ** Firings that do not reach the internal handler *)

Lemma ran_app tys data a b :
  ran tys data (a ++ b) = ran tys data a ++ ran tys data b.
Proof. apply flat_map_app. Qed.

Lemma ran_single tys data type tag :
  ran tys data [External type tag]
  = if indexOf_found tys type then [Ran tag data] else [].
Proof. unfold ran. cbn [flat_map]. apply app_nil_r. Qed.

Lemma hit_app_external tys stack type tag :
  hit tys (stack ++ [External type tag]) = hit tys stack.
Proof.
  unfold hit. rewrite existsb_app. cbn [existsb is_internal].
  now rewrite !orb_false_r.
Qed.

Lemma fireLoop_unhit sys tys data stack : forall st,
  hit tys stack = false ->
  fireLoop sys tys data stack st
  = (mkState (eventStack st) (allItems st) (localStorage st)
             (trace st ++ ran tys data stack), Return tt).
Proof.
  unfold hit.
  induction stack as [|b rest IH]; intros [es ai ls tr] H.
  - cbn. now rewrite app_nil_r.
  - cbn [fireLoop ran flat_map]. fold (ran tys data rest).
    destruct b as [|ty tag]; cbn [binding_type existsb is_internal orb] in *.
    + cbn [andb] in H. rewrite H.
      rewrite (bind_return _ _ _ _ tt) by reflexivity.
      rewrite IH by now rewrite H, andb_false_r. reflexivity.
    + destruct (indexOf_found tys ty).
      * erewrite bind_return by reflexivity. rewrite IH by assumption.
        cbn. now rewrite <- app_assoc.
      * rewrite (bind_return _ _ _ _ tt) by reflexivity. now rewrite IH.
Qed.

Lemma fire_unhit review type data st :
  hit (split type) (eventStack st) = false ->
  fireCustomEvent review type data st
  = (mkState (eventStack st) (allItems st) (localStorage st)
             (trace st ++ Fired type data
                :: ran (split type) data (eventStack st)), Return tt).
Proof.
  intros H. unfold fireCustomEvent, fireWith.
  erewrite bind_return by reflexivity.
  erewrite bind_return by reflexivity.
  rewrite fireLoop_unhit by exact H. cbn. now rewrite <- app_assoc.
Qed.

(** X1.  A firing whose types do not include ['sys-modified'], or a firing
    on a registry that has lost the internal binding, runs the external
    handlers bound to one of its types, in the order of the registry, each
    with the data fired, and changes nothing else: not the registry, not the
    list in memory, not the store.  This holds whatever the reviewer is. *)
Theorem fire_without_internal : forall review type data st,
  hit (split type) (eventStack st) = false ->
  fireCustomEvent review type data st
  = (mkState (eventStack st) (allItems st) (localStorage st)
             (trace st ++ Fired type data
                :: ran (split type) data (eventStack st)), Return tt).
Proof. intros. now apply fire_unhit. Qed.

Lemma fire_without_internal_witness :
  fireCustomEvent Reviewer_review "modified added" (Some [mkItem 1 1])
    (run (onEvent "added" 2)
       (run (onEvent "removed" 1) (boot Reviewer_review None)))
  = (mkState [Internal; External "removed" 1; External "added" 2] [] None
       [Fired "initialized" None;
        Fired "modified added" (Some [mkItem 1 1]);
        Ran 2 (Some [mkItem 1 1])], Return tt).
Proof.
  apply (fire_without_internal Reviewer_review "modified added"
           (Some [mkItem 1 1])
           (run (onEvent "added" 2)
              (run (onEvent "removed" 1) (boot Reviewer_review None)))).
  reflexivity.
Defined.

Lemma onEvent_state type tag st :
  onEvent type tag st
  = (mkState (eventStack st ++ [External type tag]) (allItems st)
             (localStorage st) (trace st), Return tt).
Proof. reflexivity. Qed.

(** ** Looking an item up *)

Lemma nth_middle_item (l1 : list Item) x l2 :
  nth_error (l1 ++ x :: l2) (List.length l1) = Some x.
Proof. rewrite nth_error_app2, Nat.sub_diag by lia. reflexivity. Qed.

Lemma skipn_middle_item (l1 : list Item) x l2 :
  skipn (S (List.length l1)) (l1 ++ x :: l2) = l2.
Proof.
  rewrite skipn_app, skipn_all2 by lia.
  replace (S (List.length l1) - List.length l1)%nat with 1%nat by lia.
  reflexivity.
Qed.

(** X3.  [getById] leaves the state alone and answers with index [-1] and no
    item exactly when no item of the list has the id; otherwise it answers
    with the last item of that id and its position in the list.  The list is
    the one handed over, or the stored cart when none is handed over. *)
Theorem getById_last_match : forall id0 l st,
  exists f,
    getById id0 (Some l) st = (st, Return f)
    /\ (cart_is st l -> getById id0 None st = (st, Return f))
    /\ (index f = -1 <-> ~ In id0 (ids l))
    /\ (index f = -1 -> item f = None)
    /\ (In id0 (ids l) ->
        exists x,
          item f = Some x /\ id x = id0
          /\ 0 <= index f < Z.of_nat (List.length l)
          /\ nth_error l (Z.to_nat (index f)) = Some x
          /\ ~ In id0 (ids (skipn (S (Z.to_nat (index f))) l))).
Proof.
  intros id0 l st. eexists. split; [apply getById_given|].
  split; [apply getById_stored|]. cbn [index item].
  destruct (in_dec Z.eq_dec id0 (ids l)) as [I|N].
  - destruct (last_occurrence _ _ I) as (l1 & x & l2 & -> & E & F).
    rewrite scanIndex_last, pop_filter_last by assumption.
    rewrite Z.add_0_l, Nat2Z.id.
    split; [split; [lia | contradiction]|].
    split; [lia|]. intros _. exists x.
    rewrite nth_middle_item, skipn_middle_item, length_app.
    cbn [List.length]. repeat split; auto; lia.
  - rewrite scanIndex_absent, filter_absent by assumption.
    split; [tauto|]. split; [reflexivity | contradiction].
Qed.

Lemma getById_last_match_witness :
  exists f,
    getById 1 (Some [mkItem 1 5; mkItem 2 6; mkItem 1 7])
            (boot Reviewer_review None)
    = (boot Reviewer_review None, Return f)
    /\ item f = Some (mkItem 1 7) /\ index f = 2.
Proof.
  destruct (getById_last_match 1 [mkItem 1 5; mkItem 2 6; mkItem 1 7]
              (boot Reviewer_review None)) as (f & E & _).
  exists f. split; [exact E|].
  injection E as <-. split; reflexivity.
Defined.

(** ** Reading *)

Lemma bind_throw {A B} (c : M A) (k : A -> M B) st st' e :
  c st = (st', Throw e) -> bind c k st = (st', Throw e).
Proof. unfold bind. now intros ->. Qed.

Lemma fetch_pair st : storage_fetch st = (st, result storage_fetch st).
Proof.
  unfold result. rewrite <- (fetch_state st) at 2.
  now destruct (storage_fetch st).
Qed.

(** X4.  Reading the cart writes nothing: [getCart()] and [getById] leave
    the state as it is, whatever the store holds and whether they return or
    throw; [getCart(cb)] only runs its callback, on the items read. *)
Theorem reads_write_nothing : forall st id0 itemsToUse tag,
  fst (getCart None st) = st
  /\ fst (getById id0 itemsToUse st) = st
  /\ fst (getCart (Some tag) st)
     = match result storage_fetch st with
       | Return l => mkState (eventStack st) (allItems st) (localStorage st)
                             (trace st ++ [CalledBack tag l])
       | _ => st
       end.
Proof.
  intros st id0 itemsToUse tag.
  assert (G : forall cb, getCart cb st
              = match result storage_fetch st with
                | Return l => (run (callback cb l) st, Return l)
                | Throw e => (st, Throw e)
                | Unmodelled => (st, Unmodelled)
                end).
  { intros cb. unfold getCart, bind at 1. rewrite (fetch_pair st).
    destruct (result storage_fetch st); try reflexivity.
    destruct cb; reflexivity. }
  split; [|split].
  - rewrite G. now destruct (result storage_fetch st).
  - destruct itemsToUse as [l|]; [reflexivity|].
    unfold getById, bind. rewrite G.
    now destruct (result storage_fetch st).
  - rewrite G. now destruct (result storage_fetch st).
Qed.

Lemma malformed_fetch st s :
  localStorage st = Some s -> s <> [] -> fromJson s = SyntaxError ->
  storage_fetch st = (st, Throw SyntaxErr).
Proof.
  intros L N P. unfold storage_fetch, bind, getItem, gets. rewrite L.
  destruct s as [|c s]; [contradiction|]. now rewrite P.
Qed.

(** X5.  On a stored record that is not JSON every operation that reads the
    cart throws the error of the reader and changes nothing, whatever the
    reviewer: [getCart], [getById] without a list, [addItems], [addItem],
    [remove] and [changeQuantity]. *)
Theorem malformed_store_throws : forall review st s,
  localStorage st = Some s -> s <> [] -> fromJson s = SyntaxError ->
  (forall cb, getCart cb st = (st, Throw SyntaxErr))
  /\ (forall id0, getById id0 None st = (st, Throw SyntaxErr))
  /\ (forall items, addItems review items st = (st, Throw SyntaxErr))
  /\ (forall i q, addItem review (Some i) q st = (st, Throw SyntaxErr))
  /\ (forall id0, remove review id0 st = (st, Throw SyntaxErr))
  /\ (forall id0 q cb,
        changeQuantity review id0 q cb st = (st, Throw SyntaxErr)).
Proof.
  intros review st s L N P.
  pose proof (malformed_fetch st s L N P) as F.
  assert (G : forall cb, getCart cb st = (st, Throw SyntaxErr))
    by (intros cb; unfold getCart; now rewrite (bind_throw _ _ _ _ _ F)).
  assert (B : forall id0, getById id0 None st = (st, Throw SyntaxErr))
    by (intros id0; unfold getById; now rewrite (bind_throw _ _ _ _ _ (G None))).
  split; [exact G|]. split; [exact B|].
  split; [intros items; unfold addItems;
          now rewrite (bind_throw _ _ _ _ _ (G None))|].
  split; [intros i q; unfold addItem, addItems;
          now rewrite (bind_throw _ _ _ _ _ (G None))|].
  split; [intros id0; unfold remove;
          now rewrite (bind_throw _ _ _ _ _ (B id0))|].
  intros id0 q cb. unfold changeQuantity.
  now rewrite (bind_throw _ _ _ _ _ (G None)).
Qed.

Lemma malformed_store_throws_witness :
  remove Reviewer_review 1 (boot Reviewer_review (Some (txt "[{")))
  = (boot Reviewer_review (Some (txt "[{")), Throw SyntaxErr).
Proof.
  apply (malformed_store_throws Reviewer_review
           (boot Reviewer_review (Some (txt "[{"))) (txt "[{")
           eq_refl); [discriminate | reflexivity].
Defined.

(** ** Clearing *)

(** X6.  [clear] does not read the store: under the reviewer of the source,
    with the internal binding registered, it leaves the empty cart in memory
    and in store whatever the store held, a record that is not JSON
    included; the record it leaves is the one [storage.clear] writes. *)
Theorem clear_any_store : forall st,
  wired st ->
  clear Reviewer_review st
  = (mutated "modified removed cleared sys-modified" [] st, Return tt)
  /\ cart_is (run (clear Reviewer_review) st) []
  /\ allItems (run (clear Reviewer_review) st) = []
  /\ localStorage (run (clear Reviewer_review) st)
     = localStorage (run storage_clear st).
Proof.
  intros st W.
  assert (E : clear Reviewer_review st
              = (mutated "modified removed cleared sys-modified" [] st,
                 Return tt))
    by (apply fire_mutation; [assumption | apply found_sys_modified]).
  split; [exact E|]. unfold run. rewrite E. cbn [fst].
  split; [apply cart_mutated|]. split; reflexivity.
Qed.

Lemma clear_any_store_witness :
  cart_is (run (clear Reviewer_review)
               (boot Reviewer_review (Some (txt "[{")))) [].
Proof.
  apply (clear_any_store (boot Reviewer_review (Some (txt "[{")))).
  reflexivity.
Defined.

(** ** A review that rejects *)

Lemma cart_is_same_store st st' l :
  localStorage st' = localStorage st -> cart_is st l -> cart_is st' l.
Proof.
  unfold cart_is, storage_fetch, bind, getItem, gets. intros ->.
  destruct (localStorage st) as [[|c s]|]; try now intros [= <-].
  destruct (fromJson (c :: s)); try discriminate.
  destruct (items_of_json v); try discriminate. now intros [= <-].
Qed.

Lemma ran_external tys data type tag stack :
  ran tys data (External type tag :: stack)
  = (if indexOf_found tys type then [Ran tag data] else [])
      ++ ran tys data stack.
Proof. reflexivity. Qed.

Lemma sysModified_rejected review err items st :
  (forall s, review s = Reject err) ->
  sysModified review (Some items) st
  = (mkState (eventStack st) items (localStorage st)
             (trace st ++ [Broadcast items]), Throw (Rejected err)).
Proof.
  intros R. unfold sysModified, save, refresh.
  erewrite bind_return by reflexivity.
  erewrite bind_return by reflexivity.
  erewrite bind_return by reflexivity.
  rewrite R. reflexivity.
Qed.

Lemma fireLoop_rejected review err tys items pre post :
  (forall s, review s = Reject err) ->
  existsb is_internal pre = false ->
  indexOf_found tys "sys-modified" = true ->
  forall st,
  fireLoop (sysModified review) tys (Some items) (pre ++ Internal :: post) st
  = (mkState (eventStack st) items (localStorage st)
             (trace st ++ ran tys (Some items) pre ++ [Broadcast items]),
     Throw (Rejected err)).
Proof.
  intros R N F. induction pre as [|b pre IH]; intros st.
  - cbn [app fireLoop binding_type]. rewrite F.
    now rewrite (bind_throw _ _ _ _ _ (sysModified_rejected _ _ _ st R)).
  - destruct b as [|ty tag]; [discriminate|].
    cbn [existsb is_internal orb] in N. specialize (IH N).
    cbn [app fireLoop binding_type]. rewrite ran_external.
    destruct (indexOf_found tys ty).
    + erewrite bind_return by reflexivity. rewrite IH. cbn.
      now rewrite <- !app_assoc.
    + rewrite (bind_return _ _ _ _ tt) by reflexivity. now rewrite IH.
Qed.

Lemma fire_rejected review err type items pre post st :
  (forall s, review s = Reject err) ->
  eventStack st = pre ++ Internal :: post ->
  existsb is_internal pre = false ->
  indexOf_found (split type) "sys-modified" = true ->
  fireCustomEvent review type (Some items) st
  = (mkState (eventStack st) items (localStorage st)
             (trace st ++ Fired type (Some items)
                :: ran (split type) (Some items) pre ++ [Broadcast items]),
     Throw (Rejected err)).
Proof.
  intros R E N F. unfold fireCustomEvent, fireWith.
  erewrite bind_return by reflexivity.
  erewrite bind_return by reflexivity.
  cbn [eventStack]. rewrite E.
  rewrite (fireLoop_rejected review err _ items pre post R N F).
  cbn. now rewrite <- app_assoc.
Qed.

(** X7.  Under a reviewer that rejects, a firing that reaches the internal
    handler throws the rejection out of [fireCustomEvent].  By then the list
    fired is the list in memory and has been broadcast; the store is as it
    was, ['persisted'] is not fired, and the handlers bound after the
    internal binding are not run. *)
Theorem firing_rejected : forall review err type items pre post st,
  (forall s, review s = Reject err) ->
  eventStack st = pre ++ Internal :: post ->
  existsb is_internal pre = false ->
  indexOf_found (split type) "sys-modified" = true ->
  fireCustomEvent review type (Some items) st
  = (mkState (eventStack st) items (localStorage st)
             (trace st ++ Fired type (Some items)
                :: ran (split type) (Some items) pre ++ [Broadcast items]),
     Throw (Rejected err)).
Proof. intros. now apply fire_rejected with (post := post). Qed.

Lemma firing_rejected_witness :
  let review := fun _ : state => Reject "no" in
  fireCustomEvent review "modified removed cleared sys-modified" (Some [])
    (run (onEvent "modified" 1)
         (boot review (Some (toJson [mkItem 1 2]))))
  = (mkState [Internal; External "modified" 1] []
             (Some (toJson [mkItem 1 2]))
             [Fired "initialized" None;
              Fired "modified removed cleared sys-modified" (Some []);
              Broadcast []],
     Throw (Rejected "no")).
Proof.
  apply (firing_rejected (fun _ => Reject "no") "no"
           "modified removed cleared sys-modified" [] []
           [External "modified" 1]
           (run (onEvent "modified" 1)
                (boot (fun _ => Reject "no") (Some (toJson [mkItem 1 2])))));
    reflexivity.
Defined.

Lemma fire_approved type items st :
  fireCustomEvent Reviewer_review type (Some items) st
  = (mkState (eventStack st)
       (if hit (split type) (eventStack st) then items else allItems st)
       (if hit (split type) (eventStack st) then Some (toJson items)
        else localStorage st)
       (trace st ++ Fired type (Some items)
          :: delivered (eventStack st) (split type) items (eventStack st)),
     Return tt).
Proof.
  unfold fireCustomEvent, fireWith, bind, log, gets.
  cbn [eventStack]. rewrite fireLoop_approved. cbn.
  now rewrite <- app_assoc.
Qed.

Lemma delivered_app full tys items a b :
  delivered full tys items (a ++ b)
  = delivered full tys items a ++ delivered full tys items b.
Proof. apply flat_map_app. Qed.

Lemma delivered_full full full' tys items stack :
  ran ["persisted"%string] None full' = ran ["persisted"%string] None full ->
  delivered full' tys items stack = delivered full tys items stack.
Proof. intros E. unfold delivered. now rewrite E. Qed.

Lemma delivered_single full tys items type tag :
  delivered full tys items [External type tag]
  = if indexOf_found tys type then [Ran tag (Some items)] else [].
Proof.
  unfold delivered. cbn [flat_map binding_type]. rewrite app_nil_r.
  reflexivity.
Qed.

Lemma first_internal stack :
  existsb is_internal stack = true ->
  exists pre post, stack = pre ++ Internal :: post
                   /\ existsb is_internal pre = false.
Proof.
  induction stack as [|b r IH]; [discriminate|].
  destruct b as [|ty tag].
  - intros _. now exists [], r.
  - cbn [existsb is_internal orb]. intros H.
    destruct (IH H) as (pre & post & -> & N).
    now exists (External ty tag :: pre), post.
Qed.

(** X2.  [onEvent(type, fn)] appends the binding to the registry.  When the
    type holds a space the binding changes no firing.  When it holds none, a
    firing whose types include it runs the new handler once more than before
    the binding, with the data fired, after everything the firing did
    before; a firing whose types do not include it is as before.  This is so
    for a firing that does not reach the internal handler, whatever the
    reviewer, and for a firing with a list that reaches it under the reviewer
    of the source, the type bound not being ['persisted'].  Under a reviewer
    that rejects, a firing that reaches the internal handler does not run the
    new handler: it is as before the binding. *)
Theorem onEvent_then_fire : forall review type tag s data st,
  let before := run (fireCustomEvent review s data) st in
  let after := run (fireCustomEvent review s data) (run (onEvent type tag) st) in
  eventStack (run (onEvent type tag) st) = eventStack st ++ [External type tag]
  /\ (hit (split s) (eventStack st) = false
      \/ (review = Reviewer_review /\ data <> None
          /\ type <> "persisted"%string) ->
      (has_space type = true -> trace after = trace before)
      /\ (has_space type = false -> s = type ->
          trace after = trace before ++ [Ran tag data])
      /\ trace after
         = trace before
           ++ (if indexOf_found (split s) type then [Ran tag data] else [])
      /\ eventStack after = eventStack st ++ [External type tag]
      /\ allItems after = allItems before
      /\ localStorage after = localStorage before)
  /\ (forall err items,
        (forall x, review x = Reject err) -> data = Some items ->
        hit (split s) (eventStack st) = true ->
        trace after = trace before
        /\ eventStack after = eventStack st ++ [External type tag]).
Proof.
  intros review type tag s data st before after.
  split; [reflexivity|].
  assert (G : trace after
              = trace before
                ++ (if indexOf_found (split s) type then [Ran tag data]
                    else []) ->
              (has_space type = true -> trace after = trace before)
              /\ (has_space type = false -> s = type ->
                  trace after = trace before ++ [Ran tag data])).
  { intros ->. split.
    - intros S. rewrite (space_type_unfound type s S). apply app_nil_r.
    - intros S E. subst s. now rewrite (space_free_found type S). }
  split.
  - intros [H | (-> & D & P)].
    + pose proof (fire_unhit review s data st H) as E1.
      assert (E2 := fire_unhit review s data (run (onEvent type tag) st)).
      subst before after. unfold run in *. rewrite onEvent_state in *.
      cbn [fst eventStack] in *.
      rewrite E1, E2 in * by now rewrite hit_app_external.
      cbn [fst trace eventStack allItems localStorage] in *.
      rewrite ran_app, ran_single in *.
      assert (T : trace st ++ Fired s data
                    :: ran (split s) data (eventStack st)
                       ++ (if indexOf_found (split s) type then [Ran tag data]
                           else [])
                  = (trace st ++ Fired s data
                       :: ran (split s) data (eventStack st))
                    ++ (if indexOf_found (split s) type then [Ran tag data]
                        else []))
        by now rewrite app_comm_cons, app_assoc.
      destruct (G T) as (G1 & G2). repeat split; assumption.
    + destruct data as [items|]; [|contradiction].
      subst before after. unfold run in *. rewrite onEvent_state in *.
      cbn [fst] in *. rewrite !fire_approved in *.
      cbn [fst trace eventStack allItems localStorage] in *.
      rewrite hit_app_external, delivered_app, delivered_single in *.
      rewrite (delivered_full (eventStack st)) in *
        by (rewrite ran_app, ran_single; cbn [indexOf_found existsb];
            destruct (String.eqb_spec type "persisted");
            [contradiction | apply app_nil_r]).
      assert (T : trace st ++ Fired s (Some items)
                    :: delivered (eventStack st) (split s) items (eventStack st)
                       ++ (if indexOf_found (split s) type
                           then [Ran tag (Some items)] else [])
                  = (trace st ++ Fired s (Some items)
                       :: delivered (eventStack st) (split s) items
                            (eventStack st))
                    ++ (if indexOf_found (split s) type
                        then [Ran tag (Some items)] else []))
        by now rewrite app_comm_cons, app_assoc.
      destruct (G T) as (G1 & G2). repeat split; assumption.
  - intros err items R -> H. unfold hit in H.
    apply andb_true_iff in H. destruct H as (I & F).
    destruct (first_internal _ I) as (pre & post & E & N).
    subst before after. unfold run. rewrite onEvent_state.
    rewrite (fire_rejected review err s items pre post st R E N F).
    rewrite (fire_rejected review err s items pre
               (post ++ [External type tag]) _ R)
      by (cbn [eventStack]; rewrite ?E, <- ?app_assoc; auto).
    split; reflexivity.
Qed.

Lemma onEvent_then_fire_witness :
  trace (run (fireCustomEvent Reviewer_review "persisted" None)
           (run (onEvent "persisted" 4)
              (run (onEvent "persisted" 4) (boot Reviewer_review None))))
  = trace (run (fireCustomEvent Reviewer_review "persisted" None)
             (run (onEvent "persisted" 4) (boot Reviewer_review None)))
    ++ [Ran 4 None]
  /\ trace (run (fireCustomEvent Reviewer_review "sys-modified"
                   (Some [mkItem 1 1]))
              (run (onEvent "sys-modified" 5) (boot Reviewer_review None)))
     = trace (run (fireCustomEvent Reviewer_review "sys-modified"
                     (Some [mkItem 1 1]))
                (boot Reviewer_review None))
       ++ [Ran 5 (Some [mkItem 1 1])]
  /\ trace (run (fireCustomEvent (fun _ => Reject "no") "sys-modified"
                   (Some [mkItem 1 1]))
              (run (onEvent "sys-modified" 5)
                 (boot (fun _ => Reject "no") None)))
     = trace (run (fireCustomEvent (fun _ => Reject "no") "sys-modified"
                     (Some [mkItem 1 1]))
                (boot (fun _ => Reject "no") None)).
Proof.
  split; [|split].
  - destruct (onEvent_then_fire Reviewer_review "persisted" 4 "persisted" None
                (run (onEvent "persisted" 4) (boot Reviewer_review None)))
      as (_ & H & _).
    destruct H as (_ & H & _); [now left|].
    apply H; reflexivity.
  - destruct (onEvent_then_fire Reviewer_review "sys-modified" 5
                "sys-modified" (Some [mkItem 1 1])
                (boot Reviewer_review None))
      as (_ & H & _).
    destruct H as (_ & H & _); [right; repeat split; discriminate|].
    apply H; reflexivity.
  - destruct (onEvent_then_fire (fun _ => Reject "no") "sys-modified" 5
                "sys-modified" (Some [mkItem 1 1])
                (boot (fun _ => Reject "no") None))
      as (_ & _ & H).
    apply (H "no"%string [mkItem 1 1]); reflexivity.
Defined.

Lemma addOne_rejected review err it l pre post st :
  (forall s, review s = Reject err) ->
  eventStack st = pre ++ Internal :: post ->
  existsb is_internal pre = false ->
  addOne review it l st
  = (mkState (eventStack st) (afterAdd it l) (localStorage st)
       (trace st
        ++ Fired "modified added sys-modified" (Some (afterAdd it l))
        :: ran (split "modified added sys-modified")
             (Some (afterAdd it l)) pre
        ++ [Broadcast (afterAdd it l)]),
     Throw (Rejected err)).
Proof.
  intros R E N. unfold addOne.
  rewrite (bind_return _ _ _ _ _ (getById_given (id it) st l)).
  cbn [index]. fold (afterAdd it l).
  erewrite bind_throw;
    [| apply (fire_rejected review err _ _ pre post st R E N);
       apply found_sys_modified ].
  reflexivity.
Qed.

(** X8.  Under a reviewer that rejects, [addItems] on a list that is not
    empty throws the rejection after its first entry: the later entries are
    not looked at, the store is as it was, so that the cart read afterwards
    is the old one, while the list in memory already holds the first
    entry. *)
Theorem addItems_rejected : forall review err it rest l pre post st,
  (forall s, review s = Reject err) ->
  eventStack st = pre ++ Internal :: post ->
  existsb is_internal pre = false ->
  cart_is st l ->
  let st' := run (addItems review (it :: rest)) st in
  result (addItems review (it :: rest)) st = Throw (Rejected err)
  /\ localStorage st' = localStorage st
  /\ cart_is st' l
  /\ allItems st' = afterAdd it l
  /\ firings "modified added sys-modified" (trace st')
     = firings "modified added sys-modified" (trace st)
       ++ [Some (afterAdd it l)].
Proof.
  intros review err it rest l pre post st R E N C st'.
  assert (A : addItems review (it :: rest) st
              = (mkState (eventStack st) (afterAdd it l) (localStorage st)
                   (trace st
                    ++ Fired "modified added sys-modified"
                         (Some (afterAdd it l))
                    :: ran (split "modified added sys-modified")
                         (Some (afterAdd it l)) pre
                    ++ [Broadcast (afterAdd it l)]),
                 Throw (Rejected err))).
  { unfold addItems.
    rewrite (bind_return _ _ _ _ _ (getCart_stored _ _ C)).
    cbn [addLoop].
    now rewrite (bind_throw _ _ _ _ _
                   (addOne_rejected review err it l pre post st R E N)). }
  subst st'. unfold run, result. rewrite A. cbn [fst snd].
  split; [reflexivity|]. split; [reflexivity|].
  split; [now apply (cart_is_same_store st)|].
  split; [reflexivity|].
  cbn [trace]. rewrite firings_app, firings_fired, firings_app, firings_ran.
  reflexivity.
Qed.

Lemma addItems_rejected_witness :
  let review := fun _ : state => Reject "no" in
  result (addItems review [mkItem 1 1; mkItem 2 2]) (boot review None)
  = Throw (Rejected "no").
Proof.
  apply (addItems_rejected (fun _ => Reject "no") "no" (mkItem 1 1)
           [mkItem 2 2] [] [] [] (boot (fun _ => Reject "no") None));
    reflexivity.
Defined.

(** ** Without the internal binding *)

Lemma unwired_unhit tys stack :
  existsb is_internal stack = false -> hit tys stack = false.
Proof. unfold hit. now intros ->. Qed.

Lemma addOne_unwired review it l st :
  existsb is_internal (eventStack st) = false ->
  addOne review it l st
  = (mkState (eventStack st) (allItems st) (localStorage st)
       (trace st
        ++ Fired "modified added sys-modified" (Some (afterAdd it l))
        :: ran (split "modified added sys-modified")
             (Some (afterAdd it l)) (eventStack st)),
     Return (afterAdd it l)).
Proof.
  intros U. unfold addOne.
  rewrite (bind_return _ _ _ _ _ (getById_given (id it) st l)).
  cbn [index]. fold (afterAdd it l).
  erewrite bind_return by (apply fire_unhit, unwired_unhit; exact U).
  reflexivity.
Qed.

Lemma addLoop_unwired review items : forall l st,
  existsb is_internal (eventStack st) = false ->
  exists st',
    addLoop review items l st = (st', Return (last (snapshots items l) l))
    /\ eventStack st' = eventStack st
    /\ allItems st' = allItems st
    /\ localStorage st' = localStorage st.
Proof.
  induction items as [|it rest IH]; intros l st U.
  - exists st. now repeat split.
  - cbn [addLoop snapshots]. rewrite last_cons.
    rewrite (bind_return _ _ _ _ _ (addOne_unwired review it l st U)).
    destruct (IH (afterAdd it l)
                 (mkState (eventStack st) (allItems st) (localStorage st)
                    (trace st
                     ++ Fired "modified added sys-modified"
                          (Some (afterAdd it l))
                     :: ran (split "modified added sys-modified")
                          (Some (afterAdd it l)) (eventStack st))) U)
      as (st' & E & A & B & C).
    exists st'. now repeat split.
Qed.



(** ** Adding: how calls compose, what they keep *)

Lemma snapshots_app xs : forall ys l,
  last (snapshots (xs ++ ys) l) l
  = last (snapshots ys (last (snapshots xs l) l)) (last (snapshots xs l) l).
Proof.
  induction xs as [|x xs IH]; intros ys l; [reflexivity|].
  cbn [app snapshots]. rewrite !last_cons. apply IH.
Qed.

Lemma added_app xs : forall ys l st,
  added (xs ++ ys) l st = added ys (last (snapshots xs l) l) (added xs l st).
Proof.
  induction xs as [|x xs IH]; intros ys l st; [reflexivity|].
  cbn [app added snapshots]. rewrite last_cons. apply IH.
Qed.

Lemma wired_added items l st : wired st -> wired (added items l st).
Proof. unfold wired. now rewrite added_eventStack. Qed.

(** X11.  Under the reviewer of the source, with the internal binding
    registered, adding a list of entries of pairwise different ids in one
    call of [addItems] is adding its first part and then the rest in two
    calls: the same list is returned and the same state is reached, trace
    included.  (Entries of different ids are different objects: none is met
    again by the loop after it has been pushed.) *)
Theorem addItems_in_two_calls : forall st l xs ys,
  wired st -> cart_is st l -> NoDup (ids (xs ++ ys)) ->
  addItems Reviewer_review (xs ++ ys) st
  = addItems Reviewer_review ys (run (addItems Reviewer_review xs) st).
Proof.
  intros st l xs ys W C _. unfold run.
  rewrite (addItems_approved (xs ++ ys) l st W C).
  rewrite (addItems_approved xs l st W C). cbn [fst].
  rewrite (addItems_approved ys (last (snapshots xs l) l) (added xs l st))
    by (try apply wired_added; try apply added_cart; assumption).
  now rewrite added_app, snapshots_app.
Qed.

Lemma addItems_in_two_calls_witness :
  addItems Reviewer_review ([mkItem 1 100; mkItem 2 100] ++ [mkItem 3 1])
           (boot Reviewer_review (Some (toJson [mkItem 3 5])))
  = addItems Reviewer_review [mkItem 3 1]
      (run (addItems Reviewer_review [mkItem 1 100; mkItem 2 100])
           (boot Reviewer_review (Some (toJson [mkItem 3 5])))).
Proof.
  apply (addItems_in_two_calls
           (boot Reviewer_review (Some (toJson [mkItem 3 5])))
           [mkItem 3 5]); [reflexivity | reflexivity |].
  repeat (apply NoDup_cons; [cbn; intuition discriminate|]).
  apply NoDup_nil.
Defined.

Lemma total_app a b : total (a ++ b) = total a + total b.
Proof.
  unfold total. induction a as [|x a IH]; [reflexivity|].
  cbn [app fold_right]. rewrite IH. lia.
Qed.

Lemma afterAdd_total it l : total (afterAdd it l) = total l + qty it.
Proof.
  destruct (in_dec Z.eq_dec (id it) (ids l)) as [I|N].
  - destruct (last_occurrence _ _ I) as (l1 & x & l2 & -> & E & F).
    rewrite afterAdd_present by assumption.
    rewrite !total_app. unfold total. cbn [fold_right qty]. lia.
  - rewrite afterAdd_absent, total_app by assumption.
    unfold total. cbn [fold_right]. lia.
Qed.

Lemma snapshots_total items : forall l,
  total (last (snapshots items l) l) = total l + total items.
Proof.
  induction items as [|it rest IH]; intros l;
    [unfold total; cbn [snapshots last fold_right]; lia|].
  cbn [snapshots]. rewrite last_cons, IH, afterAdd_total.
  unfold total. cbn [fold_right]. lia.
Qed.

Lemma snapshots_ids items : forall l,
  (exists suffix, ids (last (snapshots items l) l) = ids l ++ suffix)
  /\ (forall i, In i (ids (last (snapshots items l) l))
                <-> In i (ids l) \/ In i (ids items)).
Proof.
  induction items as [|it rest IH]; intros l.
  - split; [exists []; now rewrite app_nil_r | cbn; tauto].
  - cbn [snapshots]. rewrite last_cons.
    destruct (IH (afterAdd it l)) as [(suffix & S) M].
    pose proof (afterAdd_ids it l) as A.
    destruct (in_dec Z.eq_dec (id it) (ids l)) as [I|N].
    + split.
      * exists suffix. now rewrite S, A.
      * intros i. rewrite M, A. cbn. intuition (subst; auto).
    + split.
      * exists ([id it] ++ suffix). now rewrite S, A, <- app_assoc.
      * intros i. rewrite M, A, in_app_iff. cbn. tauto.
Qed.

(** X12.  [addItems] loses and invents no quantity: under the reviewer of
    the source, with the internal binding registered, for entries of
    pairwise different ids, the quantities of the cart it leaves add up to
    those of the cart it found plus those of the entries.  Ids and quantities
    are integers up to 2^53 in magnitude, and so is the sum of the quantity
    of an entry and that of an item of the cart with its id. *)
Theorem addItems_total : forall st l items,
  wired st -> cart_is st l -> NoDup (ids items) ->
  safe_items l -> safe_items items ->
  (forall x it, In x l -> In it items -> id x = id it ->
                safe (qty x + qty it)) ->
  exists l',
    result (addItems Reviewer_review items) st = Return l'
    /\ cart_is (run (addItems Reviewer_review items) st) l'
    /\ total l' = total l + total items.
Proof.
  intros st l items W C _ _ _ _. unfold result, run.
  rewrite (addItems_approved items l st W C). cbn [fst snd].
  eexists. split; [reflexivity|].
  split; [now apply added_cart | apply snapshots_total].
Qed.

Lemma addItems_total_witness :
  exists l',
    result (addItems Reviewer_review [mkItem 1 3; mkItem 2 4])
           (boot Reviewer_review (Some (toJson [mkItem 2 10])))
    = Return l'
    /\ total l' = 10 + 7.
Proof.
  destruct (addItems_total (boot Reviewer_review (Some (toJson [mkItem 2 10])))
              [mkItem 2 10] [mkItem 1 3; mkItem 2 4]
              eq_refl eq_refl) as (l' & R & _ & T).
  - repeat (apply NoDup_cons; [cbn; intuition discriminate|]).
    apply NoDup_nil.
  - repeat constructor; unfold safe; cbn; lia.
  - repeat constructor; unfold safe; cbn; lia.
  - intros x it [<- | []] [<- | [<- | []]] _; unfold safe; cbn; lia.
  - exists l'. split; [exact R | exact T].
Defined.

(** X13.  [addItems] keeps the items of the cart in their places: under the
    reviewer of the source, with the internal binding registered, the ids of
    the cart it leaves are the ids of the cart it found, in the same order,
    followed by new ones, and an id is in the cart it leaves exactly when it
    was in the cart or is the id of an entry. *)
Theorem addItems_ids : forall st l items,
  wired st -> cart_is st l ->
  exists l',
    cart_is (run (addItems Reviewer_review items) st) l'
    /\ (exists suffix, ids l' = ids l ++ suffix)
    /\ (forall i, In i (ids l') <-> In i (ids l) \/ In i (ids items)).
Proof.
  intros st l items W C. unfold run.
  rewrite (addItems_approved items l st W C). cbn [fst].
  eexists. split; [now apply added_cart | apply snapshots_ids].
Qed.

Lemma addItems_ids_witness :
  exists l',
    cart_is (run (addItems Reviewer_review [mkItem 3 1; mkItem 1 1])
                 (boot Reviewer_review
                       (Some (toJson [mkItem 1 100; mkItem 2 100])))) l'
    /\ (exists suffix, ids l' = [1; 2] ++ suffix).
Proof.
  destruct (addItems_ids
              (boot Reviewer_review
                    (Some (toJson [mkItem 1 100; mkItem 2 100])))
              [mkItem 1 100; mkItem 2 100] [mkItem 3 1; mkItem 1 1]
              eq_refl eq_refl) as (l' & C & S & _).
  exists l'. split; [exact C | exact S].
Defined.

(** ** Removing and updating: how calls compose *)

Lemma NoDup_ids_middle l1 (x : Item) l2 :
  NoDup (ids (l1 ++ x :: l2)) ->
  NoDup (ids (l1 ++ l2)) /\ ~ In (id x) (ids (l1 ++ l2)).
Proof.
  unfold ids. rewrite !map_app. cbn [map]. intros H.
  split; [now apply NoDup_remove_1 in H | now apply NoDup_remove_2 in H].
Qed.

(** X14.  After [remove(id)] the id is not in the cart, and a second
    [remove(id)] returns [false] and changes nothing (cart without two items
    of one id, reviewer of the source, internal binding registered). *)
Theorem remove_twice : forall st l id0,
  wired st -> cart_is st l -> NoDup (ids l) ->
  let st' := run (remove Reviewer_review id0) st in
  exists l',
    cart_is st' l' /\ ~ In id0 (ids l') /\ NoDup (ids l')
    /\ remove Reviewer_review id0 st' = (st', Return false).
Proof.
  intros st l id0 W C D st'. subst st'. unfold run.
  destruct (in_dec Z.eq_dec id0 (ids l)) as [I|N].
  - destruct (last_occurrence _ _ I) as (l1 & x & l2 & -> & <- & F).
    rewrite (remove_present st l1 x l2 W C F). cbn [fst].
    destruct (NoDup_ids_middle _ _ _ D) as [D' A].
    exists (l1 ++ l2). split; [apply cart_mutated|].
    split; [exact A|]. split; [exact D'|].
    apply (remove_absent _ _ (l1 ++ l2)); [apply cart_mutated | exact A].
  - rewrite (remove_absent _ st l id0 C N). cbn [fst].
    exists l. split; [exact C|]. split; [exact N|]. split; [exact D|].
    now apply (remove_absent _ st l).
Qed.

Lemma remove_twice_witness :
  let st := run (addItems Reviewer_review [mkItem 1 100; mkItem 2 100])
              (boot Reviewer_review None) in
  exists l',
    cart_is (run (remove Reviewer_review 1) st) l'
    /\ remove Reviewer_review 1 (run (remove Reviewer_review 1) st)
       = (run (remove Reviewer_review 1) st, Return false).
Proof.
  destruct (remove_twice
              (run (addItems Reviewer_review [mkItem 1 100; mkItem 2 100])
                   (boot Reviewer_review None))
              [mkItem 1 100; mkItem 2 100] 1 eq_refl eq_refl)
    as (l' & C & _ & _ & R).
  - repeat constructor; cbn; intuition discriminate.
  - exists l'. split; [exact C | exact R].
Defined.

(** X15.  Adding an entry whose id is not in the cart and then removing that
    id gives the cart back (reviewer of the source, internal binding
    registered). *)
Theorem add_then_remove : forall st l id0 q,
  wired st -> cart_is st l -> ~ In id0 (ids l) ->
  let st1 := run (addItems Reviewer_review [mkItem id0 q]) st in
  result (remove Reviewer_review id0) st1 = Return true
  /\ cart_is (run (remove Reviewer_review id0) st1) l
  /\ allItems (run (remove Reviewer_review id0) st1) = l.
Proof.
  intros st l id0 q W C N st1.
  assert (E : st1 = mutated "modified added sys-modified"
                            (l ++ [mkItem id0 q]) st).
  { subst st1. unfold run.
    rewrite (addItems_approved [mkItem id0 q] l st W C).
    cbn [fst added snapshots last]. now rewrite afterAdd_absent. }
  clearbody st1. subst st1.
  set (st1 := mutated _ _ st).
  assert (R : remove Reviewer_review id0 st1
              = (mutated "modified removed sys-modified" (l ++ []) st1,
                 Return true)).
  { apply (remove_present st1 l (mkItem id0 q) []).
    - exact W.
    - apply cart_mutated.
    - intros []. }
  unfold result, run. rewrite R. cbn [fst snd]. rewrite app_nil_r.
  split; [reflexivity|]. split; [apply cart_mutated | reflexivity].
Qed.

Lemma add_then_remove_witness :
  cart_is (run (remove Reviewer_review 3)
             (run (addItems Reviewer_review [mkItem 3 1])
                (boot Reviewer_review
                      (Some (toJson [mkItem 1 100; mkItem 2 100])))))
          [mkItem 1 100; mkItem 2 100].
Proof.
  apply (add_then_remove
           (boot Reviewer_review (Some (toJson [mkItem 1 100; mkItem 2 100])))
           [mkItem 1 100; mkItem 2 100] 3 1 eq_refl eq_refl).
  cbn. intuition discriminate.
Defined.

(** X16.  After [changeQuantity(id, n)] on a cart that holds the id, the
    cart has the same ids in the same order, and [getById(id)] finds the
    item with quantity n at the index it had before (reviewer of the source,
    internal binding registered). *)
Theorem changeQuantity_then_getById : forall st l id0 n cb,
  wired st -> cart_is st l -> In id0 (ids l) ->
  let st' := run (changeQuantity Reviewer_review id0 n cb) st in
  exists l',
    cart_is st' l' /\ ids l' = ids l
    /\ result (getById id0 None) st'
       = Return (mkFound (Some (mkItem id0 n)) (scanIndex id0 l 0 (-1))).
Proof.
  intros st l id0 n cb W C I st'. subst st'.
  destruct (last_occurrence _ _ I) as (l1 & x & l2 & -> & <- & F).
  set (l' := l1 ++ mkItem (id x) n :: l2).
  assert (R : run (changeQuantity Reviewer_review (id x) n cb) st
              = run (callback cb l')
                    (mutated "modified updated sys-modified" l' st))
    by (unfold run at 1;
        now rewrite (changeQuantity_present st l1 x l2 n cb W C F)).
  rewrite R.
  assert (C' : cart_is (run (callback cb l')
                        (mutated "modified updated sys-modified" l' st)) l')
    by apply cart_callback, cart_mutated.
  exists l'. split; [exact C'|].
  split; [unfold ids, l'; now rewrite !map_app|].
  unfold result. rewrite (getById_stored _ _ _ C'). cbn [snd].
  subst l'. rewrite pop_filter_last by auto.
  now rewrite !scanIndex_last by auto.
Qed.

Lemma changeQuantity_then_getById_witness :
  let st := run (addItems Reviewer_review [mkItem 1 100; mkItem 2 100])
              (boot Reviewer_review None) in
  exists l',
    cart_is (run (changeQuantity Reviewer_review 2 10 None) st) l'
    /\ ids l' = [1; 2]
    /\ result (getById 2 None)
              (run (changeQuantity Reviewer_review 2 10 None) st)
       = Return (mkFound (Some (mkItem 2 10)) 1).
Proof.
  apply (changeQuantity_then_getById
           (run (addItems Reviewer_review [mkItem 1 100; mkItem 2 100])
                (boot Reviewer_review None))
           [mkItem 1 100; mkItem 2 100] 2 10 None eq_refl eq_refl).
  cbn. tauto.
Defined.

(** ** Unbinding *)

Lemma sweep_unbindLoop type stack :
  unbindLoop type (seq 0 (List.length stack)) stack = sweep type stack.
Proof. exact (unbindLoop_sweep type _ [] stack (le_n _)). Qed.

Lemma sweep_others type stack :
  others type (sweep type stack) = others type stack.
Proof.
  rewrite <- sweep_unbindLoop. apply unbindLoop_keeps_others.
Qed.

Lemma sweep_filter_le type (f : binding -> bool) n : forall stack,
  (List.length stack <= n)%nat ->
  (List.length (filter f (sweep type stack))
   <= List.length (filter f stack))%nat.
Proof.
  induction n as [|n IH]; intros stack L.
  - destruct stack; [reflexivity | cbn in L; lia].
  - destruct stack as [|b rest]; [reflexivity|].
    cbn [sweep]. cbn in L.
    destruct (String.eqb (binding_type b) type).
    + destruct rest as [|b' rest']; [cbn; lia|].
      cbn in L. specialize (IH rest' ltac:(lia)).
      cbn [filter]. destruct (f b), (f b'); cbn [List.length]; lia.
    + specialize (IH rest ltac:(lia)).
      cbn [filter]. destruct (f b); cbn [List.length]; lia.
Qed.

Lemma sweep_progress type n : forall stack,
  (List.length stack <= n)%nat ->
  let f := fun b => String.eqb (binding_type b) type in
  (0 < List.length (filter f stack))%nat ->
  (List.length (filter f (sweep type stack))
   < List.length (filter f stack))%nat.
Proof.
  induction n as [|n IH]; intros stack L f P.
  - destruct stack; [cbn in P; lia | cbn in L; lia].
  - destruct stack as [|b rest]; [cbn in P; lia|].
    cbn [sweep]. cbn in L. subst f. cbn [filter] in *.
    destruct (String.eqb (binding_type b) type) eqn:E.
    + destruct rest as [|b' rest']; [cbn; lia|].
      pose proof (sweep_filter_le type
                    (fun b => String.eqb (binding_type b) type)
                    _ rest' (le_n _)) as Q.
      cbn [filter].
      destruct (String.eqb (binding_type b') type); cbn [List.length]; lia.
    + cbn [filter]. rewrite E. apply IH; [lia | exact P].
Qed.

Lemma none_of_type type stack :
  List.length (filter (fun b => String.eqb (binding_type b) type) stack)
  = 0%nat ->
  others type stack = stack.
Proof.
  unfold others. induction stack as [|b rest IH]; [reflexivity|].
  cbn [filter]. destruct (String.eqb (binding_type b) type);
    [discriminate|]. cbn [negb]. intros H. now rewrite IH.
Qed.

Lemma iter_sweep type n : forall stack,
  let f := fun b => String.eqb (binding_type b) type in
  others type (Nat.iter n (sweep type) stack) = others type stack
  /\ (List.length (filter f (Nat.iter n (sweep type) stack))
      <= List.length (filter f stack) - n)%nat.
Proof.
  induction n as [|n IH]; intros stack f; subst f.
  - cbn. split; [reflexivity | lia].
  - change (Nat.iter (S n) (sweep type) stack)
      with (sweep type (Nat.iter n (sweep type) stack)).
    destruct (IH stack) as [O C]. cbn zeta in C.
    split; [now rewrite sweep_others|].
    set (s := Nat.iter n (sweep type) stack) in *.
    pose proof (sweep_filter_le type
                  (fun b => String.eqb (binding_type b) type)
                  _ s (le_n _)) as Q.
    pose proof (sweep_progress type _ s (le_n _)) as P. cbn zeta in P.
    lia.
Qed.

Lemma unbindEvent_iter type n : forall st,
  Nat.iter n (run (unbindEvent type)) st
  = mkState (Nat.iter n (sweep type) (eventStack st)) (allItems st)
            (localStorage st) (trace st).
Proof.
  induction n as [|n IH]; intros st; [now destruct st|].
  change (Nat.iter (S n) (run (unbindEvent type)) st)
    with (run (unbindEvent type) (Nat.iter n (run (unbindEvent type)) st)).
  change (Nat.iter (S n) (sweep type) (eventStack st))
    with (sweep type (Nat.iter n (sweep type) (eventStack st))).
  rewrite IH. unfold run. now rewrite unbindEvent_sweep.
Qed.

Lemma internal_among_others type stack :
  type <> "sys-modified"%string ->
  filter is_internal (others type stack) = filter is_internal stack.
Proof.
  intros N. unfold others. induction stack as [|b rest IH]; [reflexivity|].
  cbn [filter]. destruct b as [|ty tag]; cbn [binding_type].
  - destruct (String.eqb_spec "sys-modified" type) as [E|_];
      [now elim N|]. cbn [negb filter is_internal]. now rewrite IH.
  - destruct (String.eqb ty type); cbn [negb filter is_internal]; exact IH.
Qed.

(** X17.  [unbindEvent(type)] touches the registry only, and in the registry
    it leaves every binding of another type, in its place among them; so the
    internal binding is kept by the unbinding of any type but
    ['sys-modified']. *)
Theorem unbindEvent_keeps_other_types : forall type st,
  let st' := run (unbindEvent type) st in
  result (unbindEvent type) st = Return tt
  /\ others type (eventStack st') = others type (eventStack st)
  /\ allItems st' = allItems st
  /\ localStorage st' = localStorage st
  /\ trace st' = trace st
  /\ (type <> "sys-modified"%string -> wired st -> wired st').
Proof.
  intros type st st'. subst st'. unfold run, result.
  rewrite unbindEvent_sweep. cbn [fst snd eventStack allItems localStorage trace].
  repeat split. 
  - apply sweep_others.
  - intros N. unfold wired. cbn [eventStack].
    rewrite <- (internal_among_others type (sweep _ _)) by assumption.
    rewrite sweep_others. now rewrite internal_among_others.
Qed.

Lemma unbindEvent_keeps_other_types_witness :
  wired (run (unbindEvent "modified")
           (run (onEvent "modified" 2)
              (run (onEvent "modified" 1) (boot Reviewer_review None)))).
Proof.
  apply (unbindEvent_keeps_other_types "modified"
           (run (onEvent "modified" 2)
              (run (onEvent "modified" 1) (boot Reviewer_review None))));
    [discriminate | reflexivity].
Defined.

(** X18.  When no two bindings of the type are neighbours in the registry,
    [unbindEvent(type)] removes every binding of the type. *)
Theorem unbindEvent_apart : forall type st,
  apart type (eventStack st) = true ->
  eventStack (run (unbindEvent type) st) = others type (eventStack st).
Proof.
  intros type st A. unfold run. rewrite unbindEvent_sweep. cbn [fst eventStack].
  now apply sweep_apart.
Qed.

Lemma unbindEvent_apart_witness :
  eventStack
    (run (unbindEvent "modified")
       (run (onEvent "modified" 3)
          (run (onEvent "added" 2)
             (run (onEvent "modified" 1) (boot Reviewer_review None)))))
  = [Internal; External "added" 2].
Proof.
  apply (unbindEvent_apart "modified"
           (run (onEvent "modified" 3)
              (run (onEvent "added" 2)
                 (run (onEvent "modified" 1) (boot Reviewer_review None))))).
  reflexivity.
Defined.

(** X19.  Each [unbindEvent(type)] removes at least one binding of the type
    when there is one, so that calling it as many times as the registry has
    bindings leaves none of the type, and exactly the bindings of the other
    types. *)
Theorem unbindEvent_repeated : forall type st,
  let f := fun b => String.eqb (binding_type b) type in
  ((0 < List.length (filter f (eventStack st)))%nat ->
   (List.length (filter f (eventStack (run (unbindEvent type) st)))
    < List.length (filter f (eventStack st)))%nat)
  /\ eventStack (Nat.iter (List.length (eventStack st))
                          (run (unbindEvent type)) st)
     = others type (eventStack st).
Proof.
  intros type st f. split.
  - intros P. unfold run. rewrite unbindEvent_sweep. cbn [fst eventStack].
    now apply (sweep_progress type _ _ (le_n _)).
  - rewrite unbindEvent_iter. cbn [eventStack].
    destruct (iter_sweep type (List.length (eventStack st)) (eventStack st))
      as [O C].
    rewrite <- O. symmetry. apply none_of_type.
    pose proof (filter_length_le
                  (fun b => String.eqb (binding_type b) type) (eventStack st)).
    lia.
Qed.

Lemma unbindEvent_repeated_witness :
  (List.length
     (filter (fun b => String.eqb (binding_type b) "modified")
        (eventStack
           (run (unbindEvent "modified")
              (run (onEvent "modified" 2)
                 (run (onEvent "modified" 1) (boot Reviewer_review None))))))
   < 2)%nat.
Proof.
  apply (proj1 (unbindEvent_repeated "modified"
           (run (onEvent "modified" 2)
              (run (onEvent "modified" 1) (boot Reviewer_review None))))).
  cbn. lia.
Defined.

(** ** The stored record *)

(** Two lists of items with the same stored record are the same list:
    [toJson] loses nothing of a cart. *)
Theorem toJson_injective : forall l l',
  toJson l = toJson l' -> l = l'.
Proof.
  intros l l' E. pose proof (items_of_toJson l) as A.
  rewrite E, items_of_toJson in A. now injection A.
Qed.

Lemma toJson_injective_witness : [mkItem 1 2] = [mkItem 1 2].
Proof. apply (toJson_injective [mkItem 1 2] [mkItem 1 2]). reflexivity. Defined.

(** ** Sequences of calls *)

Lemma registry_cases st :
  (List.length (filter is_internal (eventStack st)) <= 1)%nat ->
  wired st \/ existsb is_internal (eventStack st) = false.
Proof.
  unfold wired. intros K.
  destruct (List.length (filter is_internal (eventStack st))) as [|[|k]] eqn:E;
    [right | now left | lia].
  induction (eventStack st) as [|b r IH]; [reflexivity|].
  destruct b; [discriminate|]. cbn in *. auto.
Qed.

Lemma consistent_same st st' :
  same_cart st st' -> consistent st -> consistent st'.
Proof.
  intros (E & A & L) (K & l & C & D & M). split; [now rewrite E|].
  exists l. split; [now apply (cart_is_same_store st)|].
  split; [exact D | now rewrite A].
Qed.

Lemma consistent_mutated type items st :
  (List.length (filter is_internal (eventStack st)) <= 1)%nat ->
  NoDup (ids items) -> consistent (mutated type items st).
Proof.
  intros K D. split; [exact K|]. exists items.
  split; [apply cart_mutated|]. split; [exact D | now right].
Qed.

Lemma getCart_same_cart cb st : same_cart st (run (getCart cb) st).
Proof.
  unfold run, getCart, bind at 1. rewrite (fetch_pair st).
  destruct (result storage_fetch st); try now repeat split.
  destruct cb; now repeat split.
Qed.

Lemma remove_unwired review st l id0 :
  existsb is_internal (eventStack st) = false -> cart_is st l ->
  same_cart st (run (remove review id0) st).
Proof.
  intros U C. unfold run.
  destruct (in_dec Z.eq_dec id0 (ids l)) as [I|N].
  - unfold remove.
    rewrite (bind_return _ _ _ _ _ (getById_stored _ _ _ C)).
    rewrite (bind_return _ _ _ _ _ (getCart_stored _ _ C)).
    cbn [index].
    destruct (last_occurrence _ _ I) as (l1 & x & l2 & -> & J & F).
    rewrite scanIndex_last, index_found by assumption. cbn [negb].
    erewrite bind_return by (apply fire_unhit, unwired_unhit; exact U).
    now repeat split.
  - rewrite (remove_absent review st l id0 C N). now repeat split.
Qed.

Lemma changeQuantity_unwired review st l id0 q cb :
  existsb is_internal (eventStack st) = false -> cart_is st l ->
  same_cart st (run (changeQuantity review id0 q cb) st).
Proof.
  intros U C. unfold run.
  destruct (in_dec Z.eq_dec id0 (ids l)) as [I|N].
  - unfold changeQuantity.
    rewrite (bind_return _ _ _ _ _ (getCart_stored _ _ C)).
    rewrite (bind_return _ _ _ _ _ (getById_stored _ _ _ C)).
    cbn [index item].
    destruct (last_occurrence _ _ I) as (l1 & x & l2 & -> & J & F).
    rewrite scanIndex_last, index_found, pop_filter_last by assumption.
    cbn [negb].
    erewrite bind_return by (apply fire_unhit, unwired_unhit; exact U).
    destruct cb; now repeat split.
  - rewrite (changeQuantity_absent review st l id0 q cb C N).
    now repeat split.
Qed.

Lemma addItems_unwired review st l items :
  existsb is_internal (eventStack st) = false -> cart_is st l ->
  same_cart st (run (addItems review items) st).
Proof.
  intros U C. unfold run, addItems.
  rewrite (bind_return _ _ _ _ _ (getCart_stored _ _ C)).
  destruct (addLoop_unwired review items l st U) as (s1 & E & A & B & L).
  rewrite E. now repeat split.
Qed.

Lemma save_source st :
  save Reviewer_review st
  = (mkState (eventStack st) (allItems st) (Some (toJson (allItems st)))
             (trace st ++ Fired "persisted" None
                :: ran ["persisted"%string] None (eventStack st)),
     Return tt).
Proof.
  destruct st. unfold save, persist, fireWith, storage_save. cbn.
  rewrite fireLoop_quiet. cbn. now rewrite <- app_assoc.
Qed.

Lemma addItems_consistent items st :
  consistent st -> consistent (run (addItems Reviewer_review items) st).
Proof.
  intros H. pose proof H as (K & l & C & D & M).
  destruct (registry_cases st K) as [W|U].
  - unfold run. rewrite (addItems_approved items l st W C). cbn [fst].
    destruct items as [|it rest]; [exact H|].
    split; [now rewrite added_eventStack|].
    exists (last (snapshots (it :: rest) l) l).
    split; [now apply added_cart|].
    split; [now apply snapshots_NoDup|].
    right. now apply added_store.
  - exact (consistent_same _ _ (addItems_unwired _ st l items U C) H).
Qed.

Lemma exec_consistent c st :
  consistent st -> consistent (exec Reviewer_review c st).
Proof.
  intros H. pose proof H as (K & l & C & D & M).
  destruct c as [cb|[i|] q|items|id0| |id0 q cb| |type tag|type];
    cbn [exec].
  - exact (consistent_same _ _ (getCart_same_cart cb st) H).
  - now apply addItems_consistent.
  - exact H.
  - now apply addItems_consistent.
  - destruct (registry_cases st K) as [W|U];
      [|exact (consistent_same _ _ (remove_unwired _ st l id0 U C) H)].
    unfold run. destruct (in_dec Z.eq_dec id0 (ids l)) as [I|N].
    + destruct (last_occurrence _ _ I) as (l1 & x & l2 & -> & <- & F).
      rewrite (remove_present st l1 x l2 W C F). cbn [fst].
      apply consistent_mutated; [exact K|].
      now apply (NoDup_ids_middle l1 x l2).
    + now rewrite (remove_absent _ st l id0 C N).
  - destruct (registry_cases st K) as [W|U].
    + unfold run, clear.
      rewrite (fire_mutation st _ [] W (proj2 (proj2 (proj2 found_sys_modified)))).
      apply consistent_mutated; [exact K | constructor].
    + unfold run, clear.
      rewrite (fire_unhit _ _ _ st (unwired_unhit _ _ U)).
      apply (consistent_same st); [now repeat split | exact H].
  - destruct (registry_cases st K) as [W|U];
      [|exact (consistent_same _ _
                 (changeQuantity_unwired _ st l id0 q cb U C) H)].
    unfold run. destruct (in_dec Z.eq_dec id0 (ids l)) as [I|N].
    + destruct (last_occurrence _ _ I) as (l1 & x & l2 & -> & <- & F).
      rewrite (changeQuantity_present st l1 x l2 q cb W C F). cbn [fst].
      apply (consistent_same
               (mutated "modified updated sys-modified"
                        (l1 ++ mkItem (id x) q :: l2) st));
        [destruct cb; now repeat split|].
      apply consistent_mutated; [exact K|].
      unfold ids in *. rewrite map_app in *. exact D.
    + now rewrite (changeQuantity_absent _ st l id0 q cb C N).
  - unfold run. rewrite save_source. cbn [fst].
    split; [exact K|]. exists (allItems st).
    split; [now apply fetch_written|].
    split; [destruct M as [-> | ->]; [constructor | exact D] | now right].
  - unfold run. rewrite onEvent_state. cbn [fst]. split.
    + cbn [eventStack]. rewrite filter_app. cbn [filter is_internal].
      now rewrite app_nil_r.
    + exists l. split; [now apply (cart_is_same_store st)|].
      split; [exact D | exact M].
  - unfold run. rewrite unbindEvent_sweep. cbn [fst]. split.
    + cbn [eventStack].
      pose proof (sweep_filter_le type is_internal _ (eventStack st) (le_n _)).
      lia.
    + exists l. split; [now apply (cart_is_same_store st)|].
      split; [exact D | exact M].
Qed.

Lemma boot_consistent ls l :
  (ls = None /\ l = [] \/ ls = Some (toJson l)) -> NoDup (ids l) ->
  consistent (boot Reviewer_review ls).
Proof.
  intros S D. split; [cbn; lia|]. exists l.
  split; [|split; [exact D | now left]].
  destruct S as [[-> ->] | ->]; [reflexivity | now apply fetch_written].
Qed.

(** X21.  Under the reviewer of the source, the service as constructed on an
    absent record, or on the record of a cart without two items of one id,
    is consistent, and every sequence of calls of its interface keeps it so:
    the registry holds the internal binding at most once, the store reads as
    a cart without two items of one id, and the list in memory is that cart
    or still the empty list it was created with. *)
Theorem calls_keep_consistent :
  consistent (boot Reviewer_review None)
  /\ (forall l, NoDup (ids l) ->
      consistent (boot Reviewer_review (Some (toJson l))))
  /\ (forall calls st,
        consistent st ->
        consistent (fold_left (fun s c => exec Reviewer_review c s) calls st)).
Proof.
  split; [apply (boot_consistent None []); [now left | constructor]|].
  split; [intros l D; apply (boot_consistent _ l); [now right | exact D]|].
  induction calls as [|c calls IH]; intros st H; [exact H|].
  cbn [fold_left]. now apply IH, exec_consistent.
Qed.

Lemma calls_keep_consistent_witness :
  consistent
    (fold_left (fun s c => exec Reviewer_review c s)
       [CallAddItems [mkItem 1 100; mkItem 2 100];
        CallAddItem (Some 3) None;
        CallUnbindEvent "sys-modified";
        CallRemove 1;
        CallSave]
       (boot Reviewer_review None)).
Proof.
  apply (proj2 (proj2 calls_keep_consistent)).
  apply (proj1 calls_keep_consistent).
Defined.

(** ** The order of effects of a change *)




(** X9.  Under a reviewer that rejects, [remove] and [changeQuantity] of an
    id of the cart throw the rejection instead of returning [true]; the
    store is as it was, so that the cart read afterwards still holds the
    item unchanged, while the list in memory already has the change. *)
Theorem remove_update_rejected :
  forall review err l1 x l2 pre post st,
  (forall s, review s = Reject err) ->
  eventStack st = pre ++ Internal :: post ->
  existsb is_internal pre = false ->
  cart_is st (l1 ++ x :: l2) -> ~ In (id x) (ids l2) ->
  (let st' := run (remove review (id x)) st in
   result (remove review (id x)) st = Throw (Rejected err)
   /\ cart_is st' (l1 ++ x :: l2)
   /\ allItems st' = l1 ++ l2)
  /\ (forall q cb,
        let st' := run (changeQuantity review (id x) q cb) st in
        result (changeQuantity review (id x) q cb) st = Throw (Rejected err)
        /\ cart_is st' (l1 ++ x :: l2)
        /\ allItems st' = l1 ++ mkItem (id x) q :: l2
        /\ firings "modified updated sys-modified" (trace st')
           = firings "modified updated sys-modified" (trace st)
             ++ [Some (l1 ++ mkItem (id x) q :: l2)]).
Proof.
  intros review err l1 x l2 pre post st R E N C F. split.
  - intros st'. subst st'. unfold run, result, remove.
    rewrite (bind_return _ _ _ _ _ (getById_stored _ _ _ C)).
    rewrite (bind_return _ _ _ _ _ (getCart_stored _ _ C)).
    cbn [index]. rewrite scanIndex_last, index_found by auto.
    cbn [negb]. rewrite Z.add_0_l, Nat2Z.id, splice_middle. cbn [app].
    erewrite bind_throw
      by (apply (fire_rejected review err _ _ pre post st R E N);
          apply found_sys_modified).
    cbn [fst snd]. split; [reflexivity|].
    split; [now apply (cart_is_same_store st) | reflexivity].
  - intros q cb st'. subst st'. unfold run, result, changeQuantity.
    rewrite (bind_return _ _ _ _ _ (getCart_stored _ _ C)).
    rewrite (bind_return _ _ _ _ _ (getById_stored _ _ _ C)).
    cbn [index item]. rewrite scanIndex_last, index_found by auto.
    rewrite pop_filter_last by auto.
    cbn [negb]. rewrite Z.add_0_l, Nat2Z.id, splice_middle. cbn [app].
    erewrite bind_throw
      by (apply (fire_rejected review err _ _ pre post st R E N);
          apply found_sys_modified).
    cbn [fst snd trace]. split; [reflexivity|].
    split; [now apply (cart_is_same_store st)|]. split; [reflexivity|].
    rewrite firings_app, firings_fired, firings_app, firings_ran.
    reflexivity.
Qed.

Lemma remove_update_rejected_witness :
  let review := fun _ : state => Reject "no" in
  let st := boot review (Some (toJson [mkItem 1 100; mkItem 2 100])) in
  result (remove review 2) st = Throw (Rejected "no")
  /\ cart_is (run (remove review 2) st) [mkItem 1 100; mkItem 2 100]
  /\ allItems (run (remove review 2) st) = [mkItem 1 100].
Proof.
  apply (proj1 (remove_update_rejected (fun _ => Reject "no") "no"
           [mkItem 1 100] (mkItem 2 100) [] [] []
           (boot (fun _ => Reject "no")
                 (Some (toJson [mkItem 1 100; mkItem 2 100])))
           (fun _ => eq_refl) eq_refl eq_refl eq_refl (fun f => f))).
Defined.

(** ** [addItems] on the objects of its caller *)





Lemma nth_update_other {A} (l : list A) i j x d :
  i <> j -> nth j (update i x l) d = nth j l d.
Proof.
  revert i j. induction l as [|y l IH]; intros [|i] [|j] H; cbn;
    try reflexivity; try congruence.
  apply IH. congruence.
Qed.




Lemma entries_other heap b x items :
  ~ In b items -> entries (update b x heap) items = entries heap items.
Proof.
  induction items as [|a items IH]; [reflexivity|]. intros H.
  unfold entries in *. cbn [map]. rewrite IH by (cbn in H; tauto). f_equal.
  apply nth_update_other. intros ->. apply H. now left.
Qed.












